(** * Live-Specgram: the scrolling spectrogram of [run_specgram.py]

    A shallow embedding of [run_specgram.py] and the properties of its
    scrolling display buffer, of its transform and of its shutdown path.

    Conventions.
    - A two-dimensional numpy array is kept column by column, together with
      its row count (an array of shape [(r, 0)] still has [r] rows).
    - Floating point magnitudes are an abstract type [A]; axis values
      (frequencies, times, the image extent) are idealised as rationals.
    - Stateful code runs in a small state-and-exception monad [M] over the
      record [World]: the capture device, the figure and its image objects. *)

From Stdlib Require Import ZArith QArith Qround Lia.
From stdpp Require Import base list strings gmap.

Set Default Proof Using "Type".
Local Open Scope nat_scope.

(** ** Exceptions and results *)

Inductive exn : Type :=
  | ZeroDivisionError
  | ValueError
  | IndexError
  | OSError
  | DeviceUnavailable
  | CaptureOverrun.

Inductive result (T : Type) : Type :=
  | Ok (v : T)
  | Raise (e : exn).
Arguments Ok {T} v.
Arguments Raise {T} e.

Definition is_ok {T} (r : result T) : bool :=
  match r with Ok _ => true | Raise _ => false end.

(** ** numpy arrays of two dimensions *)

Section Ndarray.
Context {A : Type}.

Record ndarray : Type := mk_ndarray {
  nrows : nat;
  columns : list (list A)
}.

(** [a.shape[1]] *)
Definition shape1 (a : ndarray) : nat := length (columns a).

(** Every stored column has [nrows] entries. *)
Definition well_shaped (a : ndarray) : Prop :=
  Forall (fun c => length c = nrows a) (columns a).

(** [np.hstack((a, b))] on two-dimensional arrays: concatenation along the
    column axis; numpy raises [ValueError] when the row counts differ. *)
Definition hstack (a b : ndarray) : result ndarray :=
  if Nat.eqb (nrows a) (nrows b)
  then Ok (mk_ndarray (nrows a) (columns a ++ columns b))
  else Raise ValueError.

(** [a[:, n:]] for [n >= 0]: the columns from index [n] onward (none when
    [n] exceeds the width). *)
Definition slice_cols_from (n : nat) (a : ndarray) : ndarray :=
  mk_ndarray (nrows a) (drop n (columns a)).

(** The rightmost [n] columns of [a], i.e. [a[:, shape1 a - n:]]. *)
Definition rightmost (n : nat) (a : ndarray) : ndarray :=
  slice_cols_from (shape1 a - n) a.

(** Column [j] of [a]. *)
Definition column (a : ndarray) (j : nat) : option (list A) := columns a !! j.
End Ndarray.
Arguments ndarray A : clear implicits.

(** Python's [a // b] on non-negative integers. *)
Definition floordiv (a b : nat) : result nat :=
  match b with
  | 0 => Raise ZeroDivisionError
  | S _ => Ok (a / b)
  end.

(** [l[0]] and [l[-1]] on a sequence. *)
Definition first_item {T} (l : list T) : result T :=
  match l with
  | [] => Raise IndexError
  | x :: _ => Ok x
  end.

Definition last_item {T} (l : list T) : result T :=
  match last l with
  | None => Raise IndexError
  | Some x => Ok x
  end.

(** ** Objects of the plot and of the capture device *)

(** Window functions of [matplotlib.mlab] (passed by name to [specgram]). *)
Inductive window : Type := window_hanning | window_none.

(** Handles: one capture stream, one PyAudio instance, one figure with one
    axes object.  Images are heap objects, named by a location. *)
Inductive Stream : Type := the_stream.
Inductive PyAudio : Type := the_pyaudio.
Inductive Figure : Type := the_figure.
Inductive AxesRef : Type := the_axes.
Definition loc : Type := positive.

Record LogNorm : Type := mk_LogNorm { vmin : Q; vmax : Q }.

Record AxesImage (A : Type) : Type := mk_AxesImage {
  im_A : ndarray A;
  im_extent : Q * Q * Q * Q;
  im_aspect : string;
  im_interpolation : string;
  im_cmap : string;
  im_norm : LogNorm
}.
Arguments mk_AxesImage {A}.
Arguments im_A {A}.
Arguments im_extent {A}.
Arguments im_aspect {A}.
Arguments im_interpolation {A}.
Arguments im_cmap {A}.
Arguments im_norm {A}.

(** [ax_ylim] holds the view limits of the y axis, [(bottom, top)] as
    [ax.get_ylim()] returns them. *)
Record Axes : Type := mk_Axes {
  ax_images : list loc;
  ax_xlabel : string;
  ax_ylabel : string;
  ax_title : string;
  ax_ylim : Q * Q
}.

(** [ax.yaxis_inverted()]: the upper limit lies below the lower one. *)
Definition yaxis_inverted (a : Axes) : bool :=
  negb (Qle_bool (fst (ax_ylim a)) (snd (ax_ylim a))).

(** A registered animation: its callback is always [update_fig], so only the
    extra arguments and the timer settings are stored. *)
Record FuncAnimation : Type := mk_FuncAnimation {
  anim_fargs : loc * Stream;
  anim_interval : nat;
  anim_blit : bool
}.

(** The three release calls of the [finally] block of [main]. *)
Inductive release_call : Type := StopStream | CloseStream | Terminate.

Record World (A : Type) : Type := mk_World {
  (* the capture device *)
  device_present : bool;
  pa_live : bool;
  stream_open : bool;
  stream_active : bool;
  release_fails : release_call -> bool;
  input : nat -> result (list Z);
  cursor : nat;
  (* the GUI *)
  ticks : list Z;
  show_fault : option exn;
  init_draws : nat;
  (* the figure *)
  heap : gmap loc (AxesImage A);
  axes : Axes;
  animations : list FuncAnimation
}.
Arguments mk_World {A}.
Arguments device_present {A}.
Arguments pa_live {A}.
Arguments stream_open {A}.
Arguments stream_active {A}.
Arguments release_fails {A}.
Arguments input {A}.
Arguments cursor {A}.
Arguments ticks {A}.
Arguments show_fault {A}.
Arguments init_draws {A}.
Arguments heap {A}.
Arguments axes {A}.
Arguments animations {A}.

(** ** The monad of state and exceptions *)

Definition M (A T : Type) : Type := World A -> result T * World A.

Global Instance M_ret {A} : MRet (M A) := fun T v w => (Ok v, w).

Global Instance M_bind {A} : MBind (M A) := fun T U f m w =>
  match m w with
  | (Ok v, w') => f v w'
  | (Raise e, w') => (Raise e, w')
  end.

(** A pure, fallible computation inside [M]. *)
Definition lift {A T} (r : result T) : M A T := fun w => (r, w).

(** Python's [try: body finally: fin].  The finaliser runs whatever the
    outcome of the body; when it raises, its exception replaces the body's
    outcome. *)
Definition try_finally {A T} (body : M A T) (fin : M A unit) : M A T := fun w =>
  match body w with
  | (r, w1) =>
      match fin w1 with
      | (Ok _, w2) => (r, w2)
      | (Raise e, w2) => (Raise e, w2)
      end
  end.

(** [for x in l: body(x)] *)
Fixpoint for_each {A T} (l : list T) (body : T -> M A unit) : M A unit :=
  match l with
  | [] => mret tt
  | x :: l' => body x ;; for_each l' body
  end.

(** ** Field updates of the world *)

Section WorldUpdates.
Context {A : Type}.
Implicit Type w : World A.

Definition with_cursor (n : nat) w : World A :=
  mk_World (device_present w) (pa_live w) (stream_open w) (stream_active w)
    (release_fails w) (input w) n (ticks w) (show_fault w) (init_draws w)
    (heap w) (axes w) (animations w).

Definition with_device (pa so sa : bool) w : World A :=
  mk_World (device_present w) pa so sa
    (release_fails w) (input w) (cursor w) (ticks w) (show_fault w) (init_draws w)
    (heap w) (axes w) (animations w).

Definition with_ticks (t : list Z) w : World A :=
  mk_World (device_present w) (pa_live w) (stream_open w) (stream_active w)
    (release_fails w) (input w) (cursor w) t (show_fault w) (init_draws w)
    (heap w) (axes w) (animations w).

Definition with_heap (h : gmap loc (AxesImage A)) w : World A :=
  mk_World (device_present w) (pa_live w) (stream_open w) (stream_active w)
    (release_fails w) (input w) (cursor w) (ticks w) (show_fault w) (init_draws w)
    h (axes w) (animations w).

Definition with_axes (a : Axes) w : World A :=
  mk_World (device_present w) (pa_live w) (stream_open w) (stream_active w)
    (release_fails w) (input w) (cursor w) (ticks w) (show_fault w) (init_draws w)
    (heap w) a (animations w).

Definition with_animations (l : list FuncAnimation) w : World A :=
  mk_World (device_present w) (pa_live w) (stream_open w) (stream_active w)
    (release_fails w) (input w) (cursor w) (ticks w) (show_fault w) (init_draws w)
    (heap w) (axes w) l.
End WorldUpdates.

(** ** The libraries the script calls *)

Section Libraries.
Context {A : Type}.

(** Modelled from the spec: [mic_read.open_mic], whose module is not part of
    the sources at hand.  Section 4.1: [open] acquires the input device and
    fails with [DeviceUnavailable] if no input device exists.  It returns
    the stream and the PyAudio instance, as line 115 unpacks them. *)
Definition open_mic : M A (Stream * PyAudio) := fun w =>
  if device_present w
  then (Ok (the_stream, the_pyaudio), with_device true true true w)
  else (Raise DeviceUnavailable, w).

(** Modelled from the spec: [mic_read.get_data], whose module is not part
    of the sources at hand.  Section 4.1: [read] performs one blocking read
    and either returns the samples or fails (the spec names
    [CaptureOverrun]).  What the device delivers at its [n]-th read is the
    environment's choice, [input w n]. *)
Definition get_data (stream : Stream) : M A (list Z) := fun w =>
  (input w (cursor w), with_cursor (S (cursor w)) w).

(** [pyaudio]: the three release calls.  Each may fail (PortAudio reports
    an error) and then raises [OSError] without changing the device. *)
Definition stop_stream (stream : Stream) : M A unit := fun w =>
  if release_fails w StopStream then (Raise OSError, w)
  else (Ok tt, with_device (pa_live w) (stream_open w) false w).

Definition close (stream : Stream) : M A unit := fun w =>
  if release_fails w CloseStream then (Raise OSError, w)
  else (Ok tt, with_device (pa_live w) false (stream_active w) w).

Definition terminate (pa : PyAudio) : M A unit := fun w =>
  if release_fails w Terminate then (Raise OSError, w)
  else (Ok tt, with_device false (stream_open w) (stream_active w) w).

(** The device has been given back: stream stopped and closed, PyAudio
    terminated. *)
Definition released (w : World A) : Prop :=
  stream_active w = false /\ stream_open w = false /\ pa_live w = false.

(** The image object [o] with its data array replaced by [a]: every other
    attribute is kept. *)
Definition with_array (a : ndarray A) (o : AxesImage A) : AxesImage A :=
  mk_AxesImage a (im_extent o) (im_aspect o) (im_interpolation o)
               (im_cmap o) (im_norm o).

(** The attributes of an image object other than its data array. *)
Definition attributes (o : AxesImage A)
    : Q * Q * Q * Q * string * string * string * LogNorm :=
  (im_extent o, im_aspect o, im_interpolation o, im_cmap o, im_norm o).

(** [im.get_array()] and [im.set_array(a)].  A Python reference always
    names a live object; the [None] case only makes the model total. *)
Definition get_array (im : loc) : M A (ndarray A) := fun w =>
  match heap w !! im with
  | Some o => (Ok (im_A o), w)
  | None => (Raise ValueError, w)
  end.

Definition set_array (im : loc) (a : ndarray A) : M A unit := fun w =>
  match heap w !! im with
  | Some o => (Ok tt, with_heap (<[im := with_array a o]> (heap w)) w)
  | None => (Raise ValueError, w)
  end.

(** [plt.figure()], [fig.gca()]: a new figure with empty axes, whose y axis
    runs from 0 to 1. *)
Definition plt_figure : M A Figure := fun w =>
  (Ok the_figure,
   with_axes (mk_Axes [] EmptyString EmptyString EmptyString (0, 1)%Q) w).

Definition gca (fig : Figure) : M A AxesRef := mret the_axes.

(** [ax.imshow(X, aspect=, extent=, interpolation=, cmap=, norm=)]: a new
    image object holding [X], added to the axes.  The extent
    [(left, right, bottom, top)] becomes the view of the axes: the y axis
    runs from [bottom] to [top]. *)
Definition imshow (ax : AxesRef) (X : ndarray A) (aspect : string)
    (extent : Q * Q * Q * Q) (interpolation cmap : string) (norm : LogNorm)
    : M A loc := fun w =>
  let im := fresh (dom (heap w)) in
  let a := axes w in
  (Ok im,
   with_axes (mk_Axes (ax_images a ++ [im]) (ax_xlabel a) (ax_ylabel a)
                (ax_title a) (extent.1.2, extent.2))
     (with_heap (<[im := mk_AxesImage X extent aspect interpolation cmap norm]>
                   (heap w)) w)).

Definition set_xlabel (ax : AxesRef) (s : string) : M A unit := fun w =>
  let a := axes w in
  (Ok tt, with_axes (mk_Axes (ax_images a) s (ax_ylabel a) (ax_title a)
                       (ax_ylim a)) w).

Definition set_ylabel (ax : AxesRef) (s : string) : M A unit := fun w =>
  let a := axes w in
  (Ok tt, with_axes (mk_Axes (ax_images a) (ax_xlabel a) s (ax_title a)
                       (ax_ylim a)) w).

Definition set_title (ax : AxesRef) (s : string) : M A unit := fun w =>
  let a := axes w in
  (Ok tt, with_axes (mk_Axes (ax_images a) (ax_xlabel a) (ax_ylabel a) s
                       (ax_ylim a)) w).

(** [ax.invert_yaxis()] exchanges the two limits of the y axis. *)
Definition invert_yaxis (ax : AxesRef) : M A unit := fun w =>
  let a := axes w in
  (Ok tt, with_axes (mk_Axes (ax_images a) (ax_xlabel a) (ax_ylabel a)
                       (ax_title a) ((ax_ylim a).2, (ax_ylim a).1)) w).

(** [FuncAnimation(fig, func=, fargs=, interval=, blit=)]: the animation
    registers itself with the figure's timer and, while it is being
    constructed, already draws its first frame: the constructor calls
    [func(0, *fargs)].  How many times it does so depends on the library
    (the comment of lines 68-69 speaks of several calls with 0); the world
    gives the number as [init_draws].  An error raised by [func] leaves the
    constructor. *)
Definition new_FuncAnimation (fig : Figure)
    (func : Z -> loc -> Stream -> M A (list loc)) (fargs : loc * Stream)
    (interval : nat) (blit : bool) : M A FuncAnimation := fun w =>
  let an := mk_FuncAnimation fargs interval blit in
  (for_each (replicate (init_draws w) 0%Z)
     (fun frame => func frame (fst fargs) (snd fargs) ;; mret tt) ;;
   mret an) (with_animations (animations w ++ [an]) w).
End Libraries.

(** ** The script [run_specgram.py] *)

Definition SAMPLES_PER_FRAME : nat := 2.
Definition N_FFT : nat := 1024.
Definition OVERLAP : nat := 1000.

Section Script.
Context {A : Type}.

(** [RATE] and [SAMPLE_LENGTH] are constants of [mic_read]; they are taken
    as parameters. *)
Variables RATE SAMPLE_LENGTH : nat.

(** [matplotlib.mlab.specgram(x, NFFT, Fs, window, noverlap)]: the library's
    transform, returning the spectrum, the frequency axis and the time
    axis.  The script is verified for any such function; module [Mlab]
    below gives the library's own. *)
Variable specgram :
  list Z -> nat -> nat -> window -> nat ->
  result (ndarray A * list Q * list Q).

(** [get_sample], lines 29-35. *)
Definition get_sample (stream : Stream) : M A (list Z) :=
  get_data stream.

(** [get_specgram], lines 38-53: the call of the library and nothing
    else. *)
Definition get_specgram (signal : list Z)
    : result (ndarray A * list Q * list Q) :=
  specgram signal N_FFT RATE window_hanning OVERLAP.

(** [update_fig], lines 56-82.  The parameter [frame] is rebound at line 70
    before it is read.  The returned one-element tuple [(im,)] is the list
    [[im]]. *)
Definition update_fig (frame : Z) (im : loc) (stream : Stream)
    : M A (list loc) :=
  data ← get_sample stream;
  '(arr_2d, freqs, times) ← lift (get_specgram data);
  im_data ← get_array im;
  frame ← lift (floordiv (shape1 im_data) (length times));
  (if frame <? SAMPLES_PER_FRAME then
     im_data ← lift (hstack im_data arr_2d);
     set_array im im_data
   else
     im_data ← lift (hstack (slice_cols_from (length times) im_data) arr_2d);
     set_array im im_data) ;;
  mret [im].

(** The first part of [make_plot], lines 86-102: the figure, the first
    frame and the plot set up from it.  No call of [update_fig] has happened
    when it ends. *)
Definition first_plot (stream : Stream) : M A (Figure * loc) :=
  fig ← plt_figure;
  ax ← gca fig;
  data ← get_sample stream;
  '(arr_2d, freqs, times) ← lift (get_specgram data);
  t0 ← lift (first_item times);
  t1 ← lift (last_item times);
  f1 ← lift (last_item freqs);
  f0 ← lift (first_item freqs);
  let extent :=
    (t0, (t1 * inject_Z (Z.of_nat SAMPLES_PER_FRAME))%Q, f1, f0) in
  im ← imshow ax arr_2d "auto" extent "none" "jet"
         (mk_LogNorm (1 # 100) 1);
  set_xlabel ax "Time (s)" ;;
  set_ylabel ax "Frequency (Hz)" ;;
  set_title ax "Real-Time Spectogram" ;;
  invert_yaxis ax ;;
  mret (fig, im).

(** [make_plot], lines 85-110: the first part, then the animation of lines
    104-110, whose constructor already calls [update_fig]. *)
Definition make_plot (stream : Stream) : M A FuncAnimation :=
  '(fig, im) ← first_plot stream;
  new_FuncAnimation fig update_fig (im, stream) SAMPLE_LENGTH true.

(** The animation driver of matplotlib: each timer tick calls the callback
    of every registered animation with the tick's frame number and the
    animation's extra arguments. *)
Definition animate (frames : list Z) (anims : list FuncAnimation)
    : M A unit :=
  for_each frames (fun frame =>
    for_each anims (fun an =>
      update_fig frame (fst (anim_fargs an)) (snd (anim_fargs an)) ;;
      mret tt)).

(** [plt.show()]: runs the event loop until the window is closed.  The
    frame numbers the timer delivers until then ([ticks]) and a failure of
    the GUI itself ([show_fault]) are the environment's choice. *)
Definition plt_show : M A unit := fun w =>
  (animate (ticks w) (animations w) ;;
   lift (match show_fault w with
         | Some e => Raise e
         | None => Ok tt
         end)) (with_ticks [] w).

(** [main], lines 113-123. *)
Definition main : M A unit :=
  '(stream, pa) ← open_mic;
  try_finally
    (animation ← make_plot stream;
     plt_show)
    (stop_stream stream ;;
     close stream ;;
     terminate pa).
End Script.

(** ** The library transform: [matplotlib.mlab.specgram]

    [specgram] belongs to matplotlib, not to the script.  The definitions of
    this module follow the library's [mlab._spectral_helper] as far as the
    shapes of its results go: zero padding of a short signal, segmentation by
    a strided sliding window, one spectrum column per segment cut to the
    one-sided frequencies, the two axes.  The numerical value of one bin of
    one segment (detrending, windowing, FFT, scaling) is left abstract.  On
    signals of at least [NFFT] samples this is the segmentation of section
    4.2 of the specification: segments of [NFFT] samples, one every
    [NFFT - noverlap] samples, a last partial segment being dropped. *)

Module Mlab.
Section Specgram.
Context {A : Type}.

(** [bin_value window Fs pad_to k segment]: bin [k] of the scaled spectrum
    of one windowed segment. *)
Variable bin_value : window -> nat -> nat -> nat -> list Z -> A.

(** [x = np.resize(x, NFFT); x[n:] = 0] when [len(x) < NFFT]. *)
Definition zero_pad (x : list Z) (NFFT : nat) : list Z :=
  if length x <? NFFT then x ++ replicate (NFFT - length x) 0%Z else x.

(** [sliding_window_view(x, n)]: every window of [n] consecutive samples. *)
Definition sliding_window_view (x : list Z) (n : nat) : list (list Z) :=
  (fun i => take n (drop i x)) <$> seq 0 (length x + 1 - n).

(** [l[::step]] is [strided step 0 l]: [skip] counts the items to pass over
    before the next one is kept. *)
Fixpoint strided {T} (step skip : nat) (l : list T) : list T :=
  match l with
  | [] => []
  | y :: l' =>
      match skip with
      | 0 => y :: strided step (step - 1) l'
      | S s => strided step s l'
      end
  end.

(** Number of one-sided frequencies for a transform of length [pad_to]. *)
Definition numFreqs (pad_to : nat) : nat :=
  if Nat.odd pad_to then (pad_to + 1) / 2 else pad_to / 2 + 1.

(** [np.fft.fft(segment, n=pad_to)[:numFreqs]], as one column. *)
Definition spectrum_column (w : window) (Fs pad_to : nat) (segment : list Z)
    : list A :=
  take (numFreqs pad_to)
       ((fun k => bin_value w Fs pad_to k segment) <$> seq 0 pad_to).

Definition QofN (n : nat) : Q := inject_Z (Z.of_nat n).

(** [np.fft.fftfreq(n, 1/Fs)]: the non-negative frequencies, then the
    negative ones. *)
Definition fftfreq (n Fs : nat) : list Q :=
  let half := (n - 1) / 2 in
  let rate := QofN Fs in
  let width := QofN n in
  (fun i =>
     if i <=? half
     then (QofN i * rate / width)%Q
     else ((QofN i - width) * rate / width)%Q) <$> seq 0 n.

(** [np.arange(start, stop, step)] *)
Definition arange (start stop step : Q) : list Q :=
  (fun i => (start + QofN i * step)%Q)
    <$> seq 0 (Z.to_nat (Qceiling ((stop - start) / step))).

(** [freqs[-1] *= -1] *)
Definition negate_last (l : list Q) : list Q :=
  alter Qopp (length l - 1) l.

Definition specgram (x : list Z) (NFFT Fs : nat) (w : window)
    (noverlap : nat) : result (ndarray A * list Q * list Q) :=
  if NFFT <=? noverlap then Raise ValueError
  else
    let x := zero_pad x NFFT in
    let pad_to := NFFT in
    let segments :=
      strided (NFFT - noverlap) 0 (sliding_window_view x NFFT) in
    let result :=
      mk_ndarray (Nat.min (numFreqs pad_to) pad_to)
                 (spectrum_column w Fs pad_to <$> segments) in
    let freqs := take (numFreqs pad_to) (fftfreq pad_to Fs) in
    let rate := QofN Fs in
    let t :=
      (fun v => (v / rate)%Q)
        <$> arange (QofN NFFT / 2)
                   (QofN (length x) - QofN NFFT / 2 + 1)
                   (QofN (NFFT - noverlap)) in
    let freqs := if Nat.even pad_to then negate_last freqs else freqs in
    Ok (result, freqs, t).
End Specgram.
End Mlab.

(** ** Vocabulary of the statements *)

(** What one successful call of [update_fig] stores in the image, given the
    image's array, the new spectrum and [len(times)]. *)
Definition pushed {A} (im_data arr_2d : ndarray A) (newCols : nat) : ndarray A :=
  if shape1 im_data / newCols <? SAMPLES_PER_FRAME
  then mk_ndarray (nrows im_data) (columns im_data ++ columns arr_2d)
  else mk_ndarray (nrows im_data)
                  (drop newCols (columns im_data) ++ columns arr_2d).

Section Feeds.
Context {A : Type}.
Variable RATE : nat.
Variable specgram :
  list Z -> nat -> nat -> window -> nat ->
  result (ndarray A * list Q * list Q).

(** The read [r] succeeded and its spectrogram passes the test [P]. *)
Definition frame_check (P : ndarray A -> list Q -> bool)
    (r : result (list Z)) : bool :=
  match r with
  | Ok d =>
      match get_specgram RATE specgram d with
      | Ok (arr_2d, _, times) => P arr_2d times
      | Raise _ => false
      end
  | Raise _ => false
  end.

(** The next [k] reads of the device pass [P]. *)
Definition feeds (P : ndarray A -> list Q -> bool) (w : World A) (k : nat)
    : bool :=
  forallb (fun i => frame_check P (input w (cursor w + i))) (seq 0 k).

(** A frame of [nr] rows and [nc] columns, with a time axis of [nc]
    entries. *)
Definition frame_of_shape (nr nc : nat) (arr_2d : ndarray A)
    (times : list Q) : bool :=
  (nrows arr_2d =? nr) && (shape1 arr_2d =? nc) && (length times =? nc).

(** A frame of [nr] rows with a non-empty time axis. *)
Definition frame_of_rows (nr : nat) (arr_2d : ndarray A) (times : list Q)
    : bool :=
  (nrows arr_2d =? nr) && negb (length times =? 0).
End Feeds.

(** The image [im] of world [w], if any. *)
Definition image_array {A} (w : World A) (im : loc) : option (ndarray A) :=
  im_A <$> heap w !! im.

(** Worlds [w] and [w'] show the same plot, except possibly for the data
    array of image [im]: same axes, same registered animations, same image
    objects with the same attributes, and the same arrays in every image
    other than [im]. *)
Definition same_plot_but_array {A} (im : loc) (w w' : World A) : Prop :=
  axes w' = axes w /\
  animations w' = animations w /\
  (forall l, attributes <$> heap w' !! l = attributes <$> heap w !! l) /\
  (forall l, l <> im -> heap w' !! l = heap w !! l).

(** Number of segments, hence of spectrum columns, that the library cuts out
    of a signal of [len] samples with the script's [N_FFT] and [OVERLAP]. *)
Definition segment_count (len : nat) : nat :=
  1 + (Nat.max len N_FFT - N_FFT) / (N_FFT - OVERLAP).

(** The computation [m] leaves untouched which release calls will fail. *)
Definition keeps_faults {A T} (m : M A T) : Prop :=
  forall w, release_fails (m w).2 = release_fails w.

(** *** Frames on their way to the display *)

Section Ahead.
Context {A : Type}.
Variable RATE : nat.
Variable specgram :
  list Z -> nat -> nat -> window -> nat ->
  result (ndarray A * list Q * list Q).

(** The spectrum that the [i]-th read from now on will give, if the read and
    its transform succeed. *)
Definition frame_at (w : World A) (i : nat) : option (ndarray A) :=
  match input w (cursor w + i) with
  | Ok d =>
      match get_specgram RATE specgram d with
      | Ok (arr_2d, _, _) => Some arr_2d
      | Raise _ => None
      end
  | Raise _ => None
  end.

(** The spectra of the next [k] reads, oldest first. *)
Definition frames_ahead (w : World A) (k : nat) : list (ndarray A) :=
  omap (frame_at w) (seq 0 k).
End Ahead.

(** The last [n] items of a list. *)
Definition newest {T} (n : nat) (l : list T) : list T :=
  drop (length l - n) l.

(** The columns of several spectra side by side, in the order given. *)
Definition side_by_side {A} (frames : list (ndarray A)) : list (list A) :=
  concat (columns <$> frames).

(** What a view of the world must not depend on for the plot code to keep
    it: the read position, the image objects, the axes, the registered
    animations and the pending ticks. *)
Definition plot_blind {A B} (view : World A -> B) : Prop :=
  (forall n w, view (with_cursor n w) = view w) /\
  (forall h w, view (with_heap h w) = view w) /\
  (forall a w, view (with_axes a w) = view w) /\
  (forall l w, view (with_animations l w) = view w) /\
  (forall t w, view (with_ticks t w) = view w).

(** The computation [m] keeps the view [view] of the world. *)
Definition keeps {A B T} (view : World A -> B) (m : M A T) : Prop :=
  forall w, view (m w).2 = view w.

(** State of the capture device: PyAudio live, stream open, stream
    active. *)
Definition device_state {A} (w : World A) : bool * bool * bool :=
  (pa_live w, stream_open w, stream_active w).

(** ** A concrete run, used to exercise the statements *)

Module Scenario.
Definition sample_bin (w : window) (Fs pad_to k : nat) (segment : list Z)
    : Z :=
  (nth k segment 0 + Z.of_nat k)%Z.

Definition specgram := Mlab.specgram sample_bin.
Definition RATE : nat := 44100.
Definition SAMPLE_LENGTH : nat := 2048.

Definition no_fault (c : release_call) : bool := false.

Definition stop_fault (c : release_call) : bool :=
  match c with StopStream => true | _ => false end.

(** Each read delivers [N_FFT + 24] samples: two segments. *)
Definition mic (n : nat) : result (list Z) :=
  Ok (replicate (N_FFT + 24) (Z.of_nat n)).

Definition blank_axes : Axes :=
  mk_Axes [] EmptyString EmptyString EmptyString (0, 1)%Q.

(** Before [main]: device present, nothing opened, nothing plotted; the
    library will draw the first frame twice while the animation is
    constructed. *)
Definition world0 : World Z :=
  mk_World true false false false no_fault mic 0 [0; 0; 1]%Z None 2 ∅
           blank_axes [].

(** As [world0], but stopping the stream will fail. *)
Definition world_stop_fails : World Z :=
  mk_World true false false false stop_fault mic 0 [0; 0; 1]%Z None 2 ∅
           blank_axes [].

Definition the_norm : LogNorm := mk_LogNorm (1 # 100) 1.

Definition image_with (a : ndarray Z) : AxesImage Z :=
  mk_AxesImage a (0, 1, 1, 0)%Q "auto" "none" "jet" the_norm.

Definition column_of (v : Z) : list Z := replicate (N_FFT / 2 + 1) v.

(** A world whose image 1 holds the given columns. *)
Definition world_showing (cols : list (list Z)) : World Z :=
  mk_World true true true true no_fault mic 0 [] None 2
           {[ 1%positive := image_with (mk_ndarray (N_FFT / 2 + 1) cols) ]}
           (mk_Axes [1%positive] "Time (s)" "Frequency (Hz)" EmptyString (0, 1)%Q)
           [mk_FuncAnimation (1%positive, the_stream) SAMPLE_LENGTH true].

Definition world_empty : World Z := world_showing [].

(** The image after one frame: two columns, half of what it will hold. *)
Definition world_half : World Z :=
  world_showing [column_of 1; column_of 2].

Definition world_full : World Z :=
  world_showing [column_of 1; column_of 2; column_of 3; column_of 4].

Definition the_animation : FuncAnimation :=
  mk_FuncAnimation (1%positive, the_stream) SAMPLE_LENGTH true.

(** The first read of [mic] and its spectrogram. *)
Definition signal0 : list Z := replicate (N_FFT + 24) 0%Z.

Definition frame0 : ndarray Z * list Q * list Q :=
  match get_specgram RATE specgram signal0 with
  | Ok f => f
  | Raise _ => (mk_ndarray 0 [], [], [])
  end.

(** A transform whose time axis is empty. *)
Definition mute_specgram (x : list Z) (NFFT Fs : nat) (w : window)
    (noverlap : nat) : result (ndarray Z * list Q * list Q) :=
  Ok (mk_ndarray (N_FFT / 2 + 1) [], [0%Q], []).

(** A world whose image 1 has four rows only. *)
Definition world_low : World Z :=
  mk_World true true true true no_fault mic 0 [] None 2
           {[ 1%positive := image_with (mk_ndarray 4 [[1; 2; 3; 4]%Z]) ]}
           (mk_Axes [1%positive] "Time (s)" "Frequency (Hz)" EmptyString (0, 1)%Q)
           [the_animation].

(** A microphone whose reads all fail. *)
Definition dead_mic (n : nat) : result (list Z) := Raise CaptureOverrun.

Definition world_dead_mic : World Z :=
  mk_World true false false false no_fault dead_mic 0 [0; 0; 1]%Z None 2 ∅
           blank_axes [].

(** The item of a successful lookup. *)
Definition item_of (r : result Q) : Q :=
  match r with Ok x => x | Raise _ => 0%Q end.

(** A microphone that delivers one read and then fails. *)
Definition mic_once (n : nat) : result (list Z) :=
  match n with
  | 0 => Ok (replicate (N_FFT + 24) 0%Z)
  | S _ => Raise CaptureOverrun
  end.

Definition world_one_read : World Z :=
  mk_World true false false false no_fault mic_once 0 [0; 0; 1]%Z None 2 ∅
           blank_axes [].

(** No input device at all. *)
Definition world_no_device : World Z :=
  mk_World false false false false no_fault mic 0 [0; 0; 1]%Z None 2 ∅
           blank_axes [].
End Scenario.

(** * Properties *)

#[local] Arguments Nat.div : simpl never.
#[local] Arguments Nat.ltb : simpl never.
#[local] Arguments Nat.eqb : simpl never.

(** ** The pushed array *)

Section Pushed.
Context {A : Type}.
Implicit Types a b : ndarray A.

Lemma floordiv_pos x y : y <> 0 -> floordiv x y = Ok (x / y).
Proof. destruct y; [done | reflexivity]. Qed.

Lemma pushed_nrows a b n : nrows (pushed a b n) = nrows a.
Proof. unfold pushed. by destruct (_ <? _). Qed.

Lemma pushed_fill a b n :
  shape1 a / n < SAMPLES_PER_FRAME ->
  columns (pushed a b n) = columns a ++ columns b.
Proof.
  intros H. unfold pushed. by rewrite (proj2 (Nat.ltb_lt _ _) H).
Qed.

Lemma pushed_scroll a b n :
  SAMPLES_PER_FRAME <= shape1 a / n ->
  columns (pushed a b n) = drop n (columns a) ++ columns b.
Proof.
  intros H. unfold pushed. by rewrite (proj2 (Nat.ltb_ge _ _) H).
Qed.

Lemma pushed_rightmost a b n :
  nrows a = nrows b ->
  rightmost (shape1 b) (pushed a b n) = b.
Proof.
  intros Hr. destruct b as [rb cb]. cbn in *.
  unfold rightmost, slice_cols_from, shape1, pushed. cbn.
  destruct (_ <? _); cbn; rewrite Hr; f_equal;
    rewrite length_app, Nat.add_sub; apply drop_app_length.
Qed.

Lemma scroll_width a n :
  n <> 0 -> SAMPLES_PER_FRAME <= shape1 a / n -> n <= shape1 a.
Proof.
  intros Hn H.
  pose proof (Nat.Div0.mul_div_le (shape1 a) n).
  unfold SAMPLES_PER_FRAME in H. nia.
Qed.

(** Width after a push of a frame of [n] columns onto [m] whole frames. *)
Lemma pushed_width a b n m :
  n <> 0 -> shape1 a = m * n -> shape1 b = n -> m <= SAMPLES_PER_FRAME ->
  shape1 (pushed a b n) = Nat.min (S m) SAMPLES_PER_FRAME * n.
Proof.
  intros Hn Ha Hb Hm.
  assert (Hq : shape1 a / n = m) by (rewrite Ha; by apply Nat.div_mul).
  destruct (decide (m < SAMPLES_PER_FRAME)) as [Hlt|Hge].
  - unfold shape1 in *. rewrite pushed_fill by (unfold shape1; lia).
    rewrite length_app, Ha, Hb. rewrite Nat.min_l by lia. clear Hq. lia.
  - assert (Hm' : m = SAMPLES_PER_FRAME) by lia.
    unfold shape1 in *. rewrite pushed_scroll by (unfold shape1; lia).
    rewrite length_app, length_drop, Ha, Hb. clear Hq.
    rewrite Nat.min_r by lia. rewrite Hm'. unfold SAMPLES_PER_FRAME. lia.
Qed.
End Pushed.

(** ** One call of [update_fig] *)

Section OneCall.
Context {A : Type}.
Variable RATE : nat.
Variable specgram :
  list Z -> nat -> nat -> window -> nat ->
  result (ndarray A * list Q * list Q).

(** The call succeeds when the read succeeds, the transform succeeds, the
    time axis is not empty and the row counts agree; it then stores the
    pushed array. *)
Lemma update_fig_run frame im stream (w : World A) d arr fr tm o :
  input w (cursor w) = Ok d ->
  get_specgram RATE specgram d = Ok (arr, fr, tm) ->
  heap w !! im = Some o ->
  length tm <> 0 ->
  nrows (im_A o) = nrows arr ->
  update_fig RATE specgram frame im stream w =
    (Ok [im],
     with_heap (<[im := with_array (pushed (im_A o) arr (length tm)) o]>
                  (heap w))
               (with_cursor (S (cursor w)) w)).
Proof.
  intros Hin Hsp Hh Hlen Hrows.
  unfold update_fig, get_sample, get_data, mbind, M_bind, lift.
  rewrite Hin, Hsp. cbn.
  unfold get_array. cbn. rewrite Hh.
  unfold floordiv. destruct (length tm) as [|n] eqn:E; [done|].
  unfold pushed.
  destruct (shape1 (im_A o) / S n <? SAMPLES_PER_FRAME) eqn:Hb.
  - unfold hstack. rewrite (proj2 (Nat.eqb_eq _ _) Hrows).
    unfold set_array. cbn. rewrite Hh. reflexivity.
  - unfold hstack, slice_cols_from. cbn.
    rewrite (proj2 (Nat.eqb_eq _ _) Hrows).
    unfold set_array. cbn. rewrite Hh. reflexivity.
Qed.

(** Every call either raises, the figure being as it was, or stores the
    pushed array in the image it was given. *)
Lemma update_fig_cases frame im stream (w : World A) :
  (exists e, update_fig RATE specgram frame im stream w
             = (Raise e, with_cursor (S (cursor w)) w))
  \/ (exists d arr fr tm o,
        input w (cursor w) = Ok d /\
        get_specgram RATE specgram d = Ok (arr, fr, tm) /\
        heap w !! im = Some o /\
        length tm <> 0 /\
        nrows (im_A o) = nrows arr /\
        update_fig RATE specgram frame im stream w =
          (Ok [im],
           with_heap (<[im := with_array (pushed (im_A o) arr (length tm)) o]>
                        (heap w))
                     (with_cursor (S (cursor w)) w))).
Proof.
  destruct (input w (cursor w)) as [d|e] eqn:Hin; cycle 1.
  { left; exists e. unfold update_fig, get_sample, get_data, mbind, M_bind.
    by rewrite Hin. }
  destruct (get_specgram RATE specgram d) as [[[arr fr] tm]|e] eqn:Hsp;
    cycle 1.
  { left; exists e.
    unfold update_fig, get_sample, get_data, mbind, M_bind, lift.
    by rewrite Hin, Hsp. }
  destruct (heap w !! im) as [o|] eqn:Hh; cycle 1.
  { left; exists ValueError.
    unfold update_fig, get_sample, get_data, mbind, M_bind, lift, get_array.
    rewrite Hin, Hsp. cbn. by rewrite Hh. }
  destruct (decide (length tm = 0)) as [Hz|Hnz].
  { left; exists ZeroDivisionError.
    unfold update_fig, get_sample, get_data, mbind, M_bind, lift, get_array.
    rewrite Hin, Hsp. cbn. rewrite Hh, Hz. reflexivity. }
  destruct (decide (nrows (im_A o) = nrows arr)) as [Hr|Hr].
  { right. exists d, arr, fr, tm, o. repeat split; try done.
    by eapply update_fig_run. }
  left; exists ValueError.
  unfold update_fig, get_sample, get_data, mbind, M_bind, lift, get_array.
  rewrite Hin, Hsp. cbn. rewrite Hh, (floordiv_pos _ _ Hnz).
  unfold hstack, slice_cols_from. cbn.
  rewrite (proj2 (Nat.eqb_neq _ _) Hr).
  by destruct (_ <? _).
Qed.

(** C2. When the image holds at least [SAMPLES_PER_FRAME] frames' worth of
    columns ([shape1 // len(times) >= SAMPLES_PER_FRAME]), a push of a
    frame of [newCols = len(times)] columns keeps the width, moves every
    old column [j >= newCols] to position [j - newCols] (the oldest
    [newCols] columns are gone) and puts the frame's columns at the right
    edge. *)
Theorem update_fig_scrolls frame im stream (w : World A) d arr fr tm o :
  input w (cursor w) = Ok d ->
  get_specgram RATE specgram d = Ok (arr, fr, tm) ->
  heap w !! im = Some o ->
  length tm <> 0 ->
  shape1 arr = length tm ->
  nrows (im_A o) = nrows arr ->
  SAMPLES_PER_FRAME <= shape1 (im_A o) / length tm ->
  exists w' o',
    update_fig RATE specgram frame im stream w = (Ok [im], w') /\
    heap w' !! im = Some o' /\
    shape1 (im_A o') = shape1 (im_A o) /\
    (forall j, length tm <= j -> j < shape1 (im_A o) ->
       column (im_A o') (j - length tm) = column (im_A o) j) /\
    (forall i, i < length tm ->
       column (im_A o') (shape1 (im_A o) - length tm + i) = column arr i).
Proof.
  intros Hin Hsp Hh Hlen Hcols Hrows Hfull.
  eexists _, _. split; [by eapply update_fig_run|].
  split; [cbn; apply lookup_insert_eq|].
  pose proof (scroll_width _ _ Hlen Hfull) as Hwide.
  unfold column, shape1 in *. cbn.
  rewrite pushed_scroll by done.
  split; [|split].
  - rewrite length_app, length_drop. lia.
  - intros j Hj1 Hj2.
    rewrite lookup_app_l by (rewrite length_drop; lia).
    rewrite lookup_drop. f_equal. lia.
  - intros i Hi.
    rewrite lookup_app_r by (rewrite length_drop; lia).
    rewrite length_drop. f_equal. lia.
Qed.

(** C3. After every successful push, in the fill-up branch as in the
    scroll branch, the rightmost [newCols] columns of the image are the
    pushed frame's spectrum, where [newCols] is its column count. *)
Theorem update_fig_newest_rightmost frame im stream (w : World A)
    d arr fr tm o :
  input w (cursor w) = Ok d ->
  get_specgram RATE specgram d = Ok (arr, fr, tm) ->
  heap w !! im = Some o ->
  length tm <> 0 ->
  nrows (im_A o) = nrows arr ->
  exists w' o',
    update_fig RATE specgram frame im stream w = (Ok [im], w') /\
    heap w' !! im = Some o' /\
    rightmost (shape1 arr) (im_A o') = arr.
Proof.
  intros Hin Hsp Hh Hlen Hrows.
  eexists _, _. split; [by eapply update_fig_run|].
  split; [cbn; apply lookup_insert_eq|].
  cbn. by apply pushed_rightmost.
Qed.

(** The counter is dead in one call. *)
Lemma update_fig_frame_unused (frame1 frame2 : Z) im stream (w : World A) :
  update_fig RATE specgram frame1 im stream w
  = update_fig RATE specgram frame2 im stream w.
Proof. reflexivity. Qed.

(** C10. A call of [update_fig] returns, when it returns, the one-element
    tuple of the image it was passed, and changes of the plot nothing but
    that image's data array: the axes with their labels, the registered
    animations, the extent, colour map, norm and other attributes of every
    image, and the arrays of the other images are as before. *)
Theorem update_fig_touches_only_array frame im stream (w w' : World A) r :
  update_fig RATE specgram frame im stream w = (r, w') ->
  (forall v, r = Ok v -> v = [im]) /\ same_plot_but_array im w w'.
Proof.
  intros Hrun.
  destruct (update_fig_cases frame im stream w)
    as [[e He]|(d & arr & fr & tm & o & _ & _ & Hh & _ & _ & Hok)].
  - rewrite He in Hrun. injection Hrun as <- <-.
    split; [intros v Hv; discriminate|].
    by repeat split.
  - rewrite Hok in Hrun. injection Hrun as <- <-.
    split; [by intros v [= <-]|].
    repeat split; cbn.
    + intros l. destruct (decide (l = im)) as [->|Hne].
      * by rewrite lookup_insert_eq, Hh.
      * by rewrite lookup_insert_ne.
    + intros l Hne. by rewrite lookup_insert_ne.
Qed.
End OneCall.

(** ** Sequences of calls *)

Section Animation.
Context {A : Type}.
Variable RATE : nat.
Variable specgram :
  list Z -> nat -> nat -> window -> nat ->
  result (ndarray A * list Q * list Q).

Lemma forallb_seq_shift (p : nat -> bool) (k : nat) :
  forallb p (seq 1 k) = forallb (fun i => p (S i)) (seq 0 k).
Proof.
  rewrite <- seq_shift.
  induction (seq 0 k) as [|x l IH]; [done|].
  cbn. by rewrite IH.
Qed.

Lemma forallb_pointwise {T} (p q : T -> bool) (l : list T) :
  (forall x, p x = q x) -> forallb p l = forallb q l.
Proof.
  intros Hpq. induction l as [|x l IH]; [done|].
  cbn. by rewrite Hpq, IH.
Qed.

(** The first of [S k] reads, and the [k] reads after it. *)
Lemma feeds_S P (w w1 : World A) k :
  input w1 = input w -> cursor w1 = S (cursor w) ->
  feeds RATE specgram P w (S k) = true ->
  frame_check RATE specgram P (input w (cursor w)) = true /\
  feeds RATE specgram P w1 k = true.
Proof.
  intros Hi Hc. unfold feeds. cbn [seq forallb].
  rewrite Nat.add_0_r, forallb_seq_shift, Hi, Hc.
  intros [H1 H2]%andb_prop. split; [done|].
  rewrite <- H2. apply forallb_pointwise.
  intros i. do 2 f_equal. lia.
Qed.

Lemma frame_check_inv P r :
  frame_check RATE specgram P r = true ->
  exists d arr fr tm,
    r = Ok d /\ get_specgram RATE specgram d = Ok (arr, fr, tm) /\
    P arr tm = true.
Proof.
  unfold frame_check. destruct r as [d|e]; [|done].
  destruct (get_specgram RATE specgram d) as [[[arr fr] tm]|e] eqn:E; [|done].
  intros HP. by exists d, arr, fr, tm.
Qed.

(** The driver with a single registered animation: one call per tick,
    stopping at the first call that raises. *)
Lemma animate_nil anims (w : World A) :
  animate RATE specgram [] anims w = (Ok tt, w).
Proof. reflexivity. Qed.

Lemma animate_cons frame frames an (w : World A) :
  animate RATE specgram (frame :: frames) [an] w =
    match update_fig RATE specgram frame (anim_fargs an).1
                     (anim_fargs an).2 w with
    | (Ok _, w1) => animate RATE specgram frames [an] w1
    | (Raise e, w1) => (Raise e, w1)
    end.
Proof.
  unfold animate. cbn [for_each]. unfold mbind, M_bind.
  by destruct (update_fig _ _ _ _ _ _) as [[v|e] w1].
Qed.

(** Fill-up, then scrolling: from [m] whole frames of [nc] columns,
    [length frames] pushes lead to [min (m + length frames)
    SAMPLES_PER_FRAME] frames. *)
Lemma animate_width an nc : forall frames (w : World A) o m,
  nc <> 0 ->
  heap w !! (anim_fargs an).1 = Some o ->
  shape1 (im_A o) = m * nc ->
  m <= SAMPLES_PER_FRAME ->
  feeds RATE specgram (frame_of_shape (nrows (im_A o)) nc) w (length frames)
    = true ->
  exists w' o',
    animate RATE specgram frames [an] w = (Ok tt, w') /\
    heap w' !! (anim_fargs an).1 = Some o' /\
    shape1 (im_A o') = Nat.min (m + length frames) SAMPLES_PER_FRAME * nc /\
    nrows (im_A o') = nrows (im_A o).
Proof.
  induction frames as [|frame frames IH]; intros w o m Hnc Hh Hw Hm Hfeed.
  - exists w, o. rewrite animate_nil, Nat.add_0_r, Nat.min_l by done. done.
  - cbn [length] in Hfeed.
    assert (Hsplit : forall w1 : World A,
               input w1 = input w -> cursor w1 = S (cursor w) ->
               frame_check RATE specgram
                 (frame_of_shape (nrows (im_A o)) nc) (input w (cursor w))
               = true /\
               feeds RATE specgram (frame_of_shape (nrows (im_A o)) nc) w1
                     (length frames) = true)
      by (intros w1 Hi Hc; by apply (feeds_S _ w w1)).
    destruct (Hsplit (with_cursor (S (cursor w)) w) eq_refl eq_refl)
      as [Hfirst _].
    apply frame_check_inv in Hfirst as (d & arr & fr & tm & Hin & Hsp & HP).
    unfold frame_of_shape in HP.
    apply andb_prop in HP as [HP Htm]. apply andb_prop in HP as [Hr Hc].
    apply Nat.eqb_eq in Hr, Hc, Htm.
    rewrite animate_cons.
    rewrite (update_fig_run RATE specgram frame _ _ w d arr fr tm o Hin Hsp Hh)
      by congruence.
    set (o1 := with_array (pushed (im_A o) arr (length tm)) o).
    set (w1 := with_heap _ _).
    destruct (Hsplit w1 eq_refl eq_refl) as [_ Hrest].
    destruct (IH w1 o1 (Nat.min (S m) SAMPLES_PER_FRAME)) as
      (w' & o' & Hrun & Hh' & Hw' & Hr'); try done.
    + subst w1. cbn. apply lookup_insert_eq.
    + subst o1. cbn. rewrite Htm. by apply pushed_width.
    + lia.
    + subst o1. cbn. by rewrite pushed_nrows.
    + exists w', o'. split; [done|]. split; [done|]. split.
      * rewrite Hw'. f_equal. cbn [length]. lia.
      * rewrite Hr'. subst o1. cbn. apply pushed_nrows.
Qed.

(** C1. Starting from an image without columns, [k] pushes of frames of
    [newCols] columns each leave [k * newCols] columns while
    [k <= SAMPLES_PER_FRAME], and [SAMPLES_PER_FRAME * newCols] columns for
    every larger [k]. *)
Theorem animate_fills_then_holds frames an newCols (w : World A) o :
  0 < newCols ->
  heap w !! (anim_fargs an).1 = Some o ->
  shape1 (im_A o) = 0 ->
  feeds RATE specgram (frame_of_shape (nrows (im_A o)) newCols) w
        (length frames) = true ->
  exists w' o',
    animate RATE specgram frames [an] w = (Ok tt, w') /\
    heap w' !! (anim_fargs an).1 = Some o' /\
    (length frames <= SAMPLES_PER_FRAME ->
       shape1 (im_A o') = length frames * newCols) /\
    (SAMPLES_PER_FRAME < length frames ->
       shape1 (im_A o') = SAMPLES_PER_FRAME * newCols).
Proof.
  intros Hnc Hh Hw Hfeed.
  destruct (animate_width an newCols frames w o 0) as
    (w' & o' & Hrun & Hh' & Hw' & _); try done; try lia.
  exists w', o'. split; [done|]. split; [done|].
  rewrite Nat.add_0_l in Hw'.
  split; intros Hk; rewrite Hw'.
  - by rewrite Nat.min_l.
  - by rewrite Nat.min_r by lia.
Qed.

(** Whatever the outcome of the calls, the image keeps its row count. *)
Lemma animate_rows_any_outcome an : forall frames (w w' : World A) r o,
  animate RATE specgram frames [an] w = (r, w') ->
  heap w !! (anim_fargs an).1 = Some o ->
  exists o',
    heap w' !! (anim_fargs an).1 = Some o' /\
    nrows (im_A o') = nrows (im_A o).
Proof.
  induction frames as [|frame frames IH]; intros w w' r o Hrun Hh.
  - rewrite animate_nil in Hrun. injection Hrun as <- <-. by exists o.
  - rewrite animate_cons in Hrun.
    destruct (update_fig_cases RATE specgram frame (anim_fargs an).1
                (anim_fargs an).2 w)
      as [[e He]|(d & arr & fr & tm & o0 & _ & _ & Hh0 & _ & _ & Hok)].
    + rewrite He in Hrun. injection Hrun as <- <-. by exists o.
    + rewrite Hok in Hrun. rewrite Hh in Hh0. injection Hh0 as <-.
      eapply IH in Hrun as (o' & Hh' & Hr'); [|cbn; apply lookup_insert_eq].
      exists o'. split; [done|]. rewrite Hr'. cbn. apply pushed_nrows.
Qed.

(** Frames of the image's row count, with a time axis that is not empty,
    are all pushed: the sequence of calls runs to its end. *)
Lemma animate_completes an : forall frames (w : World A) o,
  heap w !! (anim_fargs an).1 = Some o ->
  feeds RATE specgram (frame_of_rows (nrows (im_A o))) w (length frames)
    = true ->
  exists w', animate RATE specgram frames [an] w = (Ok tt, w').
Proof.
  induction frames as [|frame frames IH]; intros w o Hh Hfeed.
  - by exists w.
  - cbn [length] in Hfeed.
    assert (Hsplit : forall w1 : World A,
               input w1 = input w -> cursor w1 = S (cursor w) ->
               frame_check RATE specgram
                 (frame_of_rows (nrows (im_A o))) (input w (cursor w))
               = true /\
               feeds RATE specgram (frame_of_rows (nrows (im_A o))) w1
                     (length frames) = true)
      by (intros w1 Hi Hc; by apply (feeds_S _ w w1)).
    destruct (Hsplit (with_cursor (S (cursor w)) w) eq_refl eq_refl)
      as [Hfirst _].
    apply frame_check_inv in Hfirst as (d & arr & fr & tm & Hin & Hsp & HP).
    unfold frame_of_rows in HP.
    apply andb_prop in HP as [Hr Htm].
    apply Nat.eqb_eq in Hr. apply negb_true_iff, Nat.eqb_neq in Htm.
    rewrite animate_cons.
    rewrite (update_fig_run RATE specgram frame _ _ w d arr fr tm o Hin Hsp Hh)
      by congruence.
    set (o1 := with_array (pushed (im_A o) arr (length tm)) o).
    set (w1 := with_heap _ _).
    destruct (Hsplit w1 eq_refl eq_refl) as [_ Hrest].
    apply (IH w1 o1).
    + subst w1. cbn. apply lookup_insert_eq.
    + subst o1. cbn. by rewrite pushed_nrows.
Qed.

(** C7. The row count of the image is invariant: every sequence of pushes
    of frames that have the image's row count runs to its end and leaves
    the image with the row count it had before the first of them. *)
Theorem animate_keeps_rows frames an (w : World A) o :
  heap w !! (anim_fargs an).1 = Some o ->
  feeds RATE specgram (frame_of_rows (nrows (im_A o))) w (length frames)
    = true ->
  exists w' o',
    animate RATE specgram frames [an] w = (Ok tt, w') /\
    heap w' !! (anim_fargs an).1 = Some o' /\
    nrows (im_A o') = nrows (im_A o).
Proof.
  intros Hh Hfeed.
  destruct (animate_completes an frames w o Hh Hfeed) as [w' Hrun].
  destruct (animate_rows_any_outcome an frames w w' _ o Hrun Hh)
    as (o' & Hh' & Hr').
  by exists w', o'.
Qed.

(** The iteration counters do not matter for a whole run either. *)
Lemma animate_ignores_frames anims : forall frames1 frames2 (w : World A),
  length frames1 = length frames2 ->
  animate RATE specgram frames1 anims w
  = animate RATE specgram frames2 anims w.
Proof.
  unfold animate.
  induction frames1 as [|f1 l1 IH]; intros [|f2 l2] w Hlen; try done.
  cbn [for_each]. unfold mbind, M_bind.
  assert (Hsame :
    for_each anims (fun an => update_fig RATE specgram f1 (anim_fargs an).1
                                (anim_fargs an).2 ≫= fun _ => mret tt) w
    = for_each anims (fun an => update_fig RATE specgram f2 (anim_fargs an).1
                                (anim_fargs an).2 ≫= fun _ => mret tt) w).
  { induction anims as [|an anims IHa] in w |- *; [done|].
    cbn [for_each]. unfold mbind, M_bind.
    rewrite (update_fig_frame_unused RATE specgram f1 f2).
    destruct (update_fig _ _ _ _ _ _) as [[v|e] w1]; [|done].
    cbn. apply IHa. }
  unfold mbind, M_bind in Hsame. rewrite Hsame.
  destruct (for_each anims _ w) as [[v|e] w1]; [|done].
  apply IH. by injection Hlen.
Qed.

(** C5. The outcome of a push does not depend on the iteration counter it
    is called with: the counter is overwritten by the image's width divided
    by [len(times)] before it is read.  For the same world, image and
    stream, two calls with different counters give the same result and the
    same world, and so do two whole runs of the display loop whose ticks
    carry different counters. *)
Theorem update_fig_ignores_frame (frame1 frame2 : Z) im stream (w : World A) :
  update_fig RATE specgram frame1 im stream w
  = update_fig RATE specgram frame2 im stream w
  /\ (forall frames1 frames2 anims,
        length frames1 = length frames2 ->
        animate RATE specgram frames1 anims w
        = animate RATE specgram frames2 anims w).
Proof.
  split.
  - apply update_fig_frame_unused.
  - intros frames1 frames2 anims Hlen.
    by apply animate_ignores_frames.
Qed.
End Animation.

(** ** The first frame and the shutdown path *)

Section Startup.
Context {A : Type}.
Variables RATE SAMPLE_LENGTH : nat.
Variable specgram :
  list Z -> nat -> nat -> window -> nat ->
  result (ndarray A * list Q * list Q).

Lemma first_item_ok {T} (l : list T) : l <> [] -> exists x, first_item l = Ok x.
Proof. destruct l as [|x l]; [done|]. by exists x. Qed.

Lemma last_item_ok {T} (l : list T) : l <> [] -> exists x, last_item l = Ok x.
Proof.
  intros Hl. unfold last_item.
  destruct (last l) as [x|] eqn:E; [by exists x|].
  by apply last_None in E.
Qed.

(** The first part of [make_plot] succeeds when the first read and its
    transform succeed and both axes are non-empty; the new image holds the
    first spectrum and one read has been taken. *)
Lemma first_plot_run stream (w : World A) d arr fr tm :
  input w (cursor w) = Ok d ->
  get_specgram RATE specgram d = Ok (arr, fr, tm) ->
  tm <> [] ->
  fr <> [] ->
  exists w1 o,
    first_plot RATE specgram stream w
      = (Ok (the_figure, fresh (dom (heap w))), w1) /\
    heap w1 !! fresh (dom (heap w)) = Some o /\
    im_A o = arr /\
    animations w1 = animations w /\
    input w1 = input w /\
    cursor w1 = S (cursor w) /\
    init_draws w1 = init_draws w.
Proof.
  intros Hin Hsp Htm Hfr.
  destruct (first_item_ok tm Htm) as [t0 Ht0].
  destruct (last_item_ok tm Htm) as [t1 Ht1].
  destruct (last_item_ok fr Hfr) as [f1 Hf1].
  destruct (first_item_ok fr Hfr) as [f0 Hf0].
  unfold first_plot, get_sample, get_data, mbind, M_bind, lift, plt_figure,
    gca, mret, M_ret.
  cbn. rewrite Hin, Hsp, Ht0, Ht1, Hf1, Hf0. cbn.
  eexists _, _. split; [reflexivity|]. cbn.
  split; [apply lookup_insert_eq|]. done.
Qed.

(** [make_plot] is its first part followed by the constructor of the
    animation. *)
Lemma make_plot_after_first_plot stream (w w1 : World A) fig im :
  first_plot RATE specgram stream w = (Ok (fig, im), w1) ->
  make_plot RATE SAMPLE_LENGTH specgram stream w
  = new_FuncAnimation fig (update_fig RATE specgram) (im, stream)
      SAMPLE_LENGTH true w1.
Proof.
  intros Hfirst. unfold make_plot. unfold mbind at 1. unfold M_bind at 1.
  by rewrite Hfirst.
Qed.

(** Pushing a frame onto an array without columns gives the frame. *)
Lemma pushed_onto_empty (arr : ndarray A) n :
  pushed (mk_ndarray (nrows arr) []) arr n = arr.
Proof.
  unfold pushed, shape1. cbn [columns nrows length].
  rewrite Nat.Div0.div_0_l. destruct arr as [r c]. reflexivity.
Qed.

(** C4, as the script has it.  The image has no empty state.  The first
    part of [make_plot] creates it from the first frame, with one read: when
    the first call of [update_fig] is made - by the constructor of the
    animation, from the world this first part leaves - the image holds
    exactly the first spectrum, with all of its columns.  This is the array
    that a push of the first frame onto an empty buffer would give. *)
Theorem image_starts_with_first_frame stream (w : World A) d arr fr tm :
  input w (cursor w) = Ok d ->
  get_specgram RATE specgram d = Ok (arr, fr, tm) ->
  tm <> [] ->
  fr <> [] ->
  exists fig im w1 o,
    first_plot RATE specgram stream w = (Ok (fig, im), w1) /\
    make_plot RATE SAMPLE_LENGTH specgram stream w
    = new_FuncAnimation fig (update_fig RATE specgram) (im, stream)
        SAMPLE_LENGTH true w1 /\
    cursor w1 = S (cursor w) /\
    heap w1 !! im = Some o /\
    im_A o = arr /\
    shape1 (im_A o) = shape1 arr /\
    im_A o = pushed (mk_ndarray (nrows arr) []) arr (length tm).
Proof.
  intros Hin Hsp Htm Hfr.
  destruct (first_plot_run stream w d arr fr tm Hin Hsp Htm Hfr)
    as (w1 & o & Hrun & Hh & Harr & _ & _ & Hcur & _).
  exists the_figure, (fresh (dom (heap w))), w1, o.
  split; [done|].
  split; [by apply make_plot_after_first_plot|].
  rewrite Harr, pushed_onto_empty. done.
Qed.

(** *** Nothing but the environment decides which release calls fail *)

Lemma keeps_ret {T} (v : T) : keeps_faults (A:=A) (mret v).
Proof. by intros w. Qed.

Lemma keeps_lift {T} (r : result T) : keeps_faults (A:=A) (lift r).
Proof. by intros w. Qed.

Lemma keeps_bind {T U} (m : M A T) (f : T -> M A U) :
  keeps_faults m -> (forall v, keeps_faults (f v)) -> keeps_faults (m ≫= f).
Proof.
  intros Hm Hf w. unfold mbind, M_bind.
  specialize (Hm w). destruct (m w) as [[v|e] w1]; cbn in *; [|done].
  by rewrite Hf.
Qed.

Lemma keeps_for_each {T} (l : list T) (body : T -> M A unit) :
  (forall x, keeps_faults (body x)) -> keeps_faults (for_each l body).
Proof.
  intros Hb. induction l as [|x l IH]; cbn [for_each].
  - apply keeps_ret.
  - apply keeps_bind; [apply Hb | by intros _].
Qed.

Lemma keeps_get_array im : keeps_faults (get_array (A:=A) im).
Proof. intros w. unfold get_array. by destruct (heap w !! im). Qed.

Lemma keeps_set_array im a : keeps_faults (set_array (A:=A) im a).
Proof. intros w. unfold set_array. by destruct (heap w !! im). Qed.

Lemma keeps_update_fig frame im stream :
  keeps_faults (update_fig RATE specgram frame im stream).
Proof.
  unfold update_fig.
  apply keeps_bind; [by intros w | intros data].
  apply keeps_bind; [apply keeps_lift | intros [[arr_2d freqs] times]].
  apply keeps_bind; [apply keeps_get_array | intros im_data].
  apply keeps_bind; [apply keeps_lift | intros n].
  apply keeps_bind; [|intros _; apply keeps_ret].
  destruct (n <? SAMPLES_PER_FRAME);
    (apply keeps_bind; [apply keeps_lift | intros a; apply keeps_set_array]).
Qed.

Lemma keeps_animate frames anims :
  keeps_faults (animate RATE specgram frames anims).
Proof.
  apply keeps_for_each. intros frame.
  apply keeps_for_each. intros an.
  apply keeps_bind; [apply keeps_update_fig | intros _; apply keeps_ret].
Qed.

Lemma keeps_plt_show : keeps_faults (plt_show RATE specgram).
Proof.
  intros w. unfold plt_show.
  exact (keeps_bind _ _ (keeps_animate _ _) (fun _ => keeps_lift _)
           (with_ticks [] w)).
Qed.

Lemma keeps_first_plot stream :
  keeps_faults (first_plot (A:=A) RATE specgram stream).
Proof.
  unfold first_plot.
  apply keeps_bind; [by intros w | intros fig].
  apply keeps_bind; [apply keeps_ret | intros ax].
  apply keeps_bind; [by intros w | intros data].
  apply keeps_bind; [apply keeps_lift | intros [[arr_2d freqs] times]].
  do 4 (apply keeps_bind; [apply keeps_lift | intros ?]).
  apply keeps_bind; [by intros w | intros im].
  do 4 (apply keeps_bind; [by intros w | intros _]).
  apply keeps_ret.
Qed.

Lemma keeps_new_FuncAnimation fig fargs interval blit :
  keeps_faults
    (new_FuncAnimation fig (update_fig RATE specgram) fargs interval blit).
Proof.
  intros w. unfold new_FuncAnimation.
  set (w1 := with_animations _ w).
  change (release_fails w) with (release_fails w1).
  apply keeps_bind; [|intros _; apply keeps_ret].
  apply keeps_for_each. intros frame.
  apply keeps_bind; [apply keeps_update_fig | intros _; apply keeps_ret].
Qed.

Lemma keeps_make_plot stream :
  keeps_faults (make_plot RATE SAMPLE_LENGTH specgram stream).
Proof.
  unfold make_plot.
  apply keeps_bind; [apply keeps_first_plot | intros [fig im]].
  apply keeps_new_FuncAnimation.
Qed.

(** The [finally] block gives the device back when none of its three calls
    fails. *)
Lemma finaliser_releases stream pa (w : World A) :
  (forall c, release_fails w c = false) ->
  exists w',
    (stop_stream stream ;; close stream ;; terminate pa) w = (Ok tt, w') /\
    released w'.
Proof.
  intros Hok. unfold mbind, M_bind, stop_stream, close, terminate.
  rewrite (Hok StopStream). cbn. rewrite (Hok CloseStream). cbn.
  rewrite (Hok Terminate). eexists. split; [reflexivity|]. by repeat split.
Qed.

(** C9, as the script has it.  Once [open_mic] has returned, [main] stops
    and closes the stream and terminates PyAudio before it returns, on
    normal completion of [plt.show] as on any error raised by [make_plot]
    or by [plt.show], provided that none of the three release calls itself
    raises. *)
Theorem main_releases_device (w : World A) :
  device_present w = true ->
  (forall c, release_fails w c = false) ->
  exists r w',
    main RATE SAMPLE_LENGTH specgram w = (r, w') /\ released w'.
Proof.
  intros Hdev Hok.
  unfold main, open_mic. unfold mbind at 1. unfold M_bind at 1.
  rewrite Hdev. cbn beta iota. unfold try_finally.
  set (w0 := with_device true true true w).
  set (body := _ ≫= _).
  assert (Hkeep : keeps_faults body).
  { subst body. apply keeps_bind; [apply keeps_make_plot|].
    intros _. apply keeps_plt_show. }
  specialize (Hkeep w0). destruct (body w0) as [r w1]. cbn in Hkeep.
  destruct (finaliser_releases the_stream the_pyaudio w1) as (w2 & Hfin & Hrel).
  { intros c. rewrite Hkeep. apply Hok. }
  rewrite Hfin. by exists r, w2.
Qed.
End Startup.

(** ** Shapes of the library transform *)

Section MlabShapes.
Context {A : Type}.
Variable bin_value : window -> nat -> nat -> nat -> list Z -> A.

Lemma strided_length {T} (step : nat) (l : list T) : forall skip,
  skip < step ->
  length (Mlab.strided step skip l) = (length l + step - 1 - skip) / step.
Proof.
  induction l as [|y l IH]; intros skip Hskip.
  - cbn. symmetry. apply Nat.div_small. lia.
  - destruct skip as [|s]; cbn [Mlab.strided length].
    + rewrite IH by lia.
      replace (length l + step - 1 - (step - 1)) with (length l) by lia.
      replace (S (length l) + step - 1 - 0) with (length l + 1 * step) by lia.
      rewrite Nat.div_add by lia. lia.
    + rewrite IH by lia. f_equal. lia.
Qed.

Lemma sliding_window_view_length x n :
  length (Mlab.sliding_window_view x n) = length x + 1 - n.
Proof. unfold Mlab.sliding_window_view. by rewrite length_fmap, length_seq. Qed.

Lemma zero_pad_length x NFFT :
  length (Mlab.zero_pad x NFFT) = Nat.max (length x) NFFT.
Proof.
  unfold Mlab.zero_pad. destruct (length x <? NFFT) eqn:E.
  - apply Nat.ltb_lt in E. rewrite length_app, length_replicate. lia.
  - apply Nat.ltb_ge in E. lia.
Qed.

(** Number of segments: one, plus one for every whole hop that fits in what
    is left of the padded signal after the first segment. *)
Lemma segments_length x NFFT noverlap :
  noverlap < NFFT ->
  length (Mlab.strided (NFFT - noverlap) 0
            (Mlab.sliding_window_view (Mlab.zero_pad x NFFT) NFFT))
  = 1 + (Nat.max (length x) NFFT - NFFT) / (NFFT - noverlap).
Proof.
  intros Hov.
  rewrite strided_length by lia.
  rewrite sliding_window_view_length, zero_pad_length.
  replace (Nat.max (length x) NFFT + 1 - NFFT + (NFFT - noverlap) - 1 - 0)
    with (Nat.max (length x) NFFT - NFFT + 1 * (NFFT - noverlap)) by lia.
  rewrite Nat.div_add by lia. lia.
Qed.

Lemma spectrum_column_length w Fs pad_to segment :
  length (Mlab.spectrum_column bin_value w Fs pad_to segment)
  = Nat.min (Mlab.numFreqs pad_to) pad_to.
Proof.
  unfold Mlab.spectrum_column.
  by rewrite length_take, length_fmap, length_seq.
Qed.

(** The transform succeeds on every signal as soon as [noverlap < NFFT],
    and the shape of its spectrum is fixed by the three lengths. *)
Lemma specgram_shape x NFFT Fs w noverlap :
  noverlap < NFFT ->
  exists arr freqs times,
    Mlab.specgram bin_value x NFFT Fs w noverlap = Ok (arr, freqs, times) /\
    nrows arr = Nat.min (Mlab.numFreqs NFFT) NFFT /\
    shape1 arr = 1 + (Nat.max (length x) NFFT - NFFT) / (NFFT - noverlap) /\
    well_shaped arr.
Proof.
  intros Hov. unfold Mlab.specgram.
  rewrite (proj2 (Nat.leb_gt _ _) Hov).
  eexists _, _, _. split; [reflexivity|]. cbn.
  split; [done|]. split.
  - unfold shape1. cbn. rewrite length_fmap. by apply segments_length.
  - unfold well_shaped. cbn. apply Forall_fmap, Forall_forall.
    intros seg _. apply spectrum_column_length.
Qed.

(** *** The two axes *)

Lemma Zceil_div (a b : Z) :
  (0 < b)%Z -> (- ((- a) / b) = (a + b - 1) / b)%Z.
Proof.
  intros Hb.
  pose proof (Z.div_mod (- a) b ltac:(lia)) as Hdm.
  pose proof (Z.mod_pos_bound (- a) b Hb) as Hr.
  apply (Z.div_unique _ _ _ (b - 1 - (- a) mod b)%Z); lia.
Qed.

Lemma Qceiling_quotient (a b : nat) :
  0 < b ->
  Z.to_nat (Qceiling (Mlab.QofN a / Mlab.QofN b)) = (a + b - 1) / b.
Proof.
  intros Hb. unfold Mlab.QofN, Qceiling, Qfloor, Qdiv, Qmult, Qinv, Qopp, inject_Z.
  cbn [Qnum Qden].
  destruct (Z.of_nat b) as [|p|p] eqn:Eb; try lia.
  cbn [Qnum Qden].
  rewrite Zceil_div by lia.
  rewrite Z.mul_1_r, Pos.mul_1_l, <- Eb.
  replace (Z.of_nat a + Z.of_nat b - 1)%Z with (Z.of_nat (a + b - 1)) by lia.
  rewrite <- Nat2Z.inj_div. apply Nat2Z.id.
Qed.

Lemma time_axis_span (L NFFT : nat) :
  NFFT <= L ->
  (Mlab.QofN L - Mlab.QofN NFFT / 2 + 1 - Mlab.QofN NFFT / 2
   == Mlab.QofN (L - NFFT + 1))%Q.
Proof.
  intros Hle. unfold Mlab.QofN.
  replace (Z.of_nat (L - NFFT + 1)) with (Z.of_nat L + - Z.of_nat NFFT + 1)%Z
    by lia.
  rewrite !inject_Z_plus, inject_Z_opp. change (inject_Z 1) with 1%Q. field.
Qed.

Lemma arange_length (L NFFT step : nat) :
  NFFT <= L -> 0 < step ->
  length (Mlab.arange (Mlab.QofN NFFT / 2)
                      (Mlab.QofN L - Mlab.QofN NFFT / 2 + 1)
                      (Mlab.QofN step))
  = (L - NFFT + 1 + step - 1) / step.
Proof.
  intros Hle Hstep. unfold Mlab.arange.
  rewrite length_fmap, length_seq.
  rewrite <- Qceiling_quotient by done.
  f_equal. apply Qceiling_comp.
  by rewrite time_axis_span.
Qed.

(** The frames of the library are well formed: as many times as columns,
    as many frequencies as rows, and at least one of each. *)
Lemma specgram_axes x NFFT Fs w noverlap arr freqs times :
  noverlap < NFFT ->
  Mlab.specgram bin_value x NFFT Fs w noverlap = Ok (arr, freqs, times) ->
  length times = shape1 arr /\ length freqs = nrows arr /\
  0 < shape1 arr /\ 0 < nrows arr.
Proof.
  intros Hov. unfold Mlab.specgram.
  rewrite (proj2 (Nat.leb_gt _ _) Hov). intros [= <- <- <-].
  assert (Hcols :
    length (Mlab.strided (NFFT - noverlap) 0
              (Mlab.sliding_window_view (Mlab.zero_pad x NFFT) NFFT))
    = (length (Mlab.zero_pad x NFFT) - NFFT + 1 + (NFFT - noverlap) - 1)
      / (NFFT - noverlap)).
  { rewrite strided_length, sliding_window_view_length by lia.
    f_equal. rewrite zero_pad_length. lia. }
  assert (Hfreq : length (take (Mlab.numFreqs NFFT) (Mlab.fftfreq NFFT Fs))
                  = Nat.min (Mlab.numFreqs NFFT) NFFT).
  { unfold Mlab.fftfreq. by rewrite length_take, length_fmap, length_seq. }
  assert (Hrows : 0 < Nat.min (Mlab.numFreqs NFFT) NFFT).
  { unfold Mlab.numFreqs. destruct (Nat.odd NFFT).
    - assert (0 < (NFFT + 1) / 2) by (apply Nat.div_str_pos; lia). lia.
    - lia. }
  unfold shape1. cbn [columns nrows].
  rewrite !length_fmap, arange_length, Hcols
    by (rewrite ?zero_pad_length; lia).
  split; [done|]. split.
  - destruct (Nat.even NFFT); [|done].
    unfold Mlab.negate_last. by rewrite length_alter.
  - split; [|done].
    pose proof (segments_length x NFFT noverlap Hov) as Hseg. lia.
Qed.

Lemma overlap_lt_nfft : OVERLAP < N_FFT.
Proof. apply Nat.ltb_lt. vm_compute. reflexivity. Qed.

Lemma rows_of_nfft : Nat.min (Mlab.numFreqs N_FFT) N_FFT = N_FFT / 2 + 1.
Proof. vm_compute. reflexivity. Qed.

(** C6. On every signal of at least [N_FFT] samples the transform returns
    a spectrum of [N_FFT / 2 + 1] rows and
    [1 + (len(signal) - N_FFT) // (N_FFT - OVERLAP)] columns: its shape says
    so, and every one of its columns holds [N_FFT / 2 + 1] values. *)
Theorem get_specgram_shape RATE (signal : list Z) :
  N_FFT <= length signal ->
  exists arr freqs times,
    get_specgram RATE (Mlab.specgram bin_value) signal
      = Ok (arr, freqs, times) /\
    nrows arr = N_FFT / 2 + 1 /\
    shape1 arr = 1 + (length signal - N_FFT) / (N_FFT - OVERLAP) /\
    Forall (fun c => length c = N_FFT / 2 + 1) (columns arr).
Proof.
  intros Hlen. unfold get_specgram.
  destruct (specgram_shape signal N_FFT RATE window_hanning OVERLAP
              overlap_lt_nfft)
    as (arr & freqs & times & Hrun & Hrows & Hcols & Hwell).
  exists arr, freqs, times. split; [done|].
  rewrite rows_of_nfft in Hrows. split; [done|]. split.
  - rewrite Hcols. by rewrite Nat.max_l.
  - unfold well_shaped in Hwell. by rewrite Hrows in Hwell.
Qed.

(** C8, as the script has it.  [get_specgram] checks no length and raises
    no error of its own: it succeeds on every signal, shorter than [N_FFT]
    or not.  The library pads a short signal with zeros up to [N_FFT], so
    that the column count is
    [1 + (max(len(signal), N_FFT) - N_FFT) // (N_FFT - OVERLAP)]. *)
Theorem get_specgram_total RATE (signal : list Z) :
  exists arr freqs times,
    get_specgram RATE (Mlab.specgram bin_value) signal
      = Ok (arr, freqs, times) /\
    nrows arr = N_FFT / 2 + 1 /\
    shape1 arr
      = 1 + (Nat.max (length signal) N_FFT - N_FFT) / (N_FFT - OVERLAP) /\
    Forall (fun c => length c = N_FFT / 2 + 1) (columns arr).
Proof.
  unfold get_specgram.
  destruct (specgram_shape signal N_FFT RATE window_hanning OVERLAP
              overlap_lt_nfft)
    as (arr & freqs & times & Hrun & Hrows & Hcols & Hwell).
  exists arr, freqs, times. split; [done|].
  rewrite rows_of_nfft in Hrows. split; [done|]. split; [done|].
  unfold well_shaped in Hwell. by rewrite Hrows in Hwell.
Qed.

(** A signal shorter than [N_FFT] gives a single column. *)
Lemma get_specgram_short RATE (signal : list Z) :
  length signal < N_FFT ->
  exists arr freqs times,
    get_specgram RATE (Mlab.specgram bin_value) signal
      = Ok (arr, freqs, times) /\
    shape1 arr = 1.
Proof.
  intros Hshort. unfold get_specgram.
  destruct (specgram_shape signal N_FFT RATE window_hanning OVERLAP
              overlap_lt_nfft)
    as (arr & freqs & times & Hrun & _ & Hcols & _).
  exists arr, freqs, times. split; [done|].
  rewrite Hcols, Nat.max_r by lia.
  rewrite Nat.sub_diag. by rewrite Nat.Div0.div_0_l.
Qed.
End MlabShapes.

(** ** The whole display loop with the library transform *)

Section WholeRun.
Context {A : Type}.
Variable bin_value : window -> nat -> nat -> nat -> list Z -> A.
Variables RATE SAMPLE_LENGTH : nat.

(** Every signal gives a well-formed frame. *)
Lemma library_frame (d : list Z) :
  exists arr fr tm,
    get_specgram RATE (Mlab.specgram bin_value) d = Ok (arr, fr, tm) /\
    nrows arr = N_FFT / 2 + 1 /\
    shape1 arr = segment_count (length d) /\
    length tm = segment_count (length d) /\
    tm <> [] /\ fr <> [].
Proof.
  destruct (specgram_shape bin_value d N_FFT RATE window_hanning OVERLAP
              overlap_lt_nfft)
    as (arr & fr & tm & Hrun & Hrows & Hcols & _).
  rewrite rows_of_nfft in Hrows.
  destruct (specgram_axes bin_value d N_FFT RATE window_hanning OVERLAP
              arr fr tm overlap_lt_nfft Hrun) as (Htm & Hfr & Hc & Hr).
  exists arr, fr, tm. unfold segment_count.
  repeat split; try done; try congruence.
  - intros ->. cbn in Htm. lia.
  - intros ->. cbn in Hfr. lia.
Qed.

Lemma feeds_library (w : World A) k len :
  (forall i, i < k -> exists d, input w (cursor w + i) = Ok d /\ length d = len) ->
  feeds RATE (Mlab.specgram bin_value)
        (frame_of_shape (N_FFT / 2 + 1) (segment_count len)) w k = true.
Proof.
  intros Hreads. unfold feeds. apply forallb_forall.
  intros i [_ Hi]%in_seq. destruct (Hreads i) as (d & -> & Hlen); [lia|].
  destruct (library_frame d) as (arr & fr & tm & Hsp & Hr & Hc & Htm & _).
  unfold frame_check. rewrite Hsp. unfold frame_of_shape.
  rewrite Hr, Hc, Htm, Hlen. by rewrite !Nat.eqb_refl.
Qed.

End WholeRun.

(** ** The statements at work on the concrete run *)

Module Run.
Import Scenario.

(** The end-to-end scenario: 4096 samples give 129 columns. *)
Lemma segment_count_scenario : segment_count 4096 = 129.
Proof. vm_compute. reflexivity. Qed.

Lemma frame0_is_first_frame :
  get_specgram RATE specgram signal0 = Ok (frame0.1.1, frame0.1.2, frame0.2).
Proof. vm_compute. reflexivity. Qed.

Lemma animate_fills_then_holds_witness :
  exists w' o',
    animate RATE specgram [0; 0; 1]%Z [the_animation] world_empty
      = (Ok tt, w') /\
    heap w' !! (anim_fargs the_animation).1 = Some o' /\
    (length [0; 0; 1]%Z <= SAMPLES_PER_FRAME ->
       shape1 (im_A o') = length [0; 0; 1]%Z * 2) /\
    (SAMPLES_PER_FRAME < length [0; 0; 1]%Z ->
       shape1 (im_A o') = SAMPLES_PER_FRAME * 2).
Proof.
  apply (animate_fills_then_holds RATE specgram [0; 0; 1]%Z the_animation 2
           world_empty (image_with (mk_ndarray (N_FFT / 2 + 1) []))).
  - lia.
  - vm_compute. reflexivity.
  - reflexivity.
  - vm_compute. reflexivity.
Defined.

Lemma update_fig_scrolls_witness :
  exists w' o',
    update_fig RATE specgram 7 1%positive the_stream world_full
      = (Ok [1%positive], w') /\
    heap w' !! 1%positive = Some o' /\
    shape1 (im_A o') = 4 /\
    (forall j, 2 <= j -> j < 4 ->
       column (im_A o') (j - 2)
       = column (im_A (image_with (mk_ndarray (N_FFT / 2 + 1)
           [column_of 1; column_of 2; column_of 3; column_of 4]))) j) /\
    (forall i, i < 2 ->
       column (im_A o') (4 - 2 + i) = column frame0.1.1 i).
Proof.
  apply (update_fig_scrolls RATE specgram 7 1%positive the_stream world_full
           signal0 frame0.1.1 frame0.1.2 frame0.2
           (image_with (mk_ndarray (N_FFT / 2 + 1)
              [column_of 1; column_of 2; column_of 3; column_of 4]))).
  - vm_compute. reflexivity.
  - apply frame0_is_first_frame.
  - vm_compute. reflexivity.
  - vm_compute. lia.
  - vm_compute. reflexivity.
  - vm_compute. reflexivity.
  - vm_compute. lia.
Defined.

Lemma update_fig_newest_rightmost_witness :
  exists w' o',
    update_fig RATE specgram 0 1%positive the_stream world_empty
      = (Ok [1%positive], w') /\
    heap w' !! 1%positive = Some o' /\
    rightmost (shape1 frame0.1.1) (im_A o') = frame0.1.1.
Proof.
  apply (update_fig_newest_rightmost RATE specgram 0 1%positive the_stream
           world_empty signal0 frame0.1.1 frame0.1.2 frame0.2
           (image_with (mk_ndarray (N_FFT / 2 + 1) []))).
  - vm_compute. reflexivity.
  - apply frame0_is_first_frame.
  - vm_compute. reflexivity.
  - vm_compute. lia.
  - vm_compute. reflexivity.
Defined.

Lemma animate_keeps_rows_witness :
  exists w' o',
    animate RATE specgram [0; 0; 1]%Z [the_animation] world_full
      = (Ok tt, w') /\
    heap w' !! (anim_fargs the_animation).1 = Some o' /\
    nrows (im_A o') = N_FFT / 2 + 1.
Proof.
  apply (animate_keeps_rows RATE specgram [0; 0; 1]%Z the_animation
           world_full
           (image_with (mk_ndarray (N_FFT / 2 + 1)
              [column_of 1; column_of 2; column_of 3; column_of 4]))).
  - vm_compute. reflexivity.
  - vm_compute. reflexivity.
Defined.

Lemma update_fig_touches_only_array_witness :
  (forall v,
     (update_fig RATE specgram 5 1%positive the_stream world_full).1 = Ok v ->
     v = [1%positive]) /\
  same_plot_but_array 1%positive world_full
    (update_fig RATE specgram 5 1%positive the_stream world_full).2.
Proof.
  apply (update_fig_touches_only_array RATE specgram 5 1%positive the_stream
           world_full).
  apply surjective_pairing.
Defined.

Lemma image_starts_with_first_frame_witness :
  exists fig im w1 o,
    first_plot RATE specgram the_stream world0 = (Ok (fig, im), w1) /\
    make_plot RATE SAMPLE_LENGTH specgram the_stream world0
    = new_FuncAnimation fig (update_fig RATE specgram) (im, the_stream)
        SAMPLE_LENGTH true w1 /\
    cursor w1 = S (cursor world0) /\
    heap w1 !! im = Some o /\
    im_A o = frame0.1.1 /\
    shape1 (im_A o) = shape1 frame0.1.1 /\
    im_A o = pushed (mk_ndarray (nrows frame0.1.1) []) frame0.1.1
                    (length frame0.2).
Proof.
  apply (image_starts_with_first_frame RATE SAMPLE_LENGTH specgram the_stream
           world0 signal0 frame0.1.1 frame0.1.2 frame0.2).
  - vm_compute. reflexivity.
  - apply frame0_is_first_frame.
  - vm_compute. discriminate.
  - vm_compute. discriminate.
Defined.

(** The concrete run through [make_plot]: the constructor of the animation
    has called [update_fig] twice, so that three reads have been taken and
    the image holds two frames when [make_plot] returns. *)
Lemma make_plot_on_world0 :
  is_ok (make_plot RATE SAMPLE_LENGTH specgram the_stream world0).1 = true /\
  cursor (make_plot RATE SAMPLE_LENGTH specgram the_stream world0).2 = 3 /\
  (fun a => (nrows a, shape1 a))
    <$> image_array
          (make_plot RATE SAMPLE_LENGTH specgram the_stream world0).2
          1%positive
  = Some (N_FFT / 2 + 1, 4).
Proof. vm_compute. done. Qed.

(** When the second read fails, the constructor's first call of
    [update_fig] raises and so does [make_plot]. *)
Lemma make_plot_second_read_fails :
  (make_plot RATE SAMPLE_LENGTH specgram the_stream world_one_read).1
  = Raise CaptureOverrun.
Proof. vm_compute. reflexivity. Qed.

Lemma main_releases_device_witness :
  exists r w',
    main RATE SAMPLE_LENGTH specgram world0 = (r, w') /\ released w'.
Proof.
  apply (main_releases_device RATE SAMPLE_LENGTH specgram world0).
  - reflexivity.
  - intros c. reflexivity.
Defined.

Lemma get_specgram_shape_witness :
  exists arr freqs times,
    get_specgram RATE (Mlab.specgram sample_bin) signal0
      = Ok (arr, freqs, times) /\
    nrows arr = N_FFT / 2 + 1 /\
    shape1 arr = 1 + (length signal0 - N_FFT) / (N_FFT - OVERLAP) /\
    Forall (fun c => length c = N_FFT / 2 + 1) (columns arr).
Proof.
  apply (get_specgram_shape sample_bin RATE signal0).
  apply Nat.leb_le. vm_compute. reflexivity.
Defined.

(** C4 fails as stated: in the concrete run the image that the first part
    of [make_plot] creates has two columns, and no call of [update_fig] has
    been made yet. *)
Lemma first_image_not_empty :
  ~ (forall (w w1 : World Z) fig im o,
       first_plot RATE specgram the_stream w = (Ok (fig, im), w1) ->
       heap w1 !! im = Some o ->
       shape1 (im_A o) = 0).
Proof.
  intros Hclaim.
  destruct (first_plot_run RATE specgram the_stream world0
              signal0 frame0.1.1 frame0.1.2 frame0.2)
    as (w1 & o & Hrun & Hh & Harr & _).
  { vm_compute. reflexivity. }
  { apply frame0_is_first_frame. }
  { vm_compute. discriminate. }
  { vm_compute. discriminate. }
  specialize (Hclaim world0 w1 _ _ o Hrun Hh).
  assert (Hwidth : shape1 frame0.1.1 = 2) by (vm_compute; reflexivity).
  rewrite Harr, Hwidth in Hclaim. discriminate.
Qed.

(** C8 fails as stated: a signal of one sample, shorter than [N_FFT], is
    transformed without any error. *)
Lemma get_specgram_short_signal_succeeds :
  ~ (forall signal : list Z,
       length signal < N_FFT ->
       exists e, get_specgram RATE specgram signal = Raise e).
Proof.
  intros Hclaim.
  assert (Hok : is_ok (get_specgram RATE specgram [1%Z]) = true)
    by (vm_compute; reflexivity).
  destruct (Hclaim [1%Z]) as [e He].
  - apply Nat.ltb_lt. vm_compute. reflexivity.
  - rewrite He in Hok. discriminate.
Qed.

(** C9 fails as stated: when [stop_stream] raises, [main] ends with the
    stream still open and PyAudio not terminated. *)
Lemma main_leaks_when_stop_fails :
  ~ (forall (w w' : World Z) r,
       device_present w = true ->
       main RATE SAMPLE_LENGTH specgram w = (r, w') ->
       released w').
Proof.
  intros Hclaim.
  assert (Hopen :
    stream_open (main RATE SAMPLE_LENGTH specgram world_stop_fails).2 = true)
    by (vm_compute; reflexivity).
  pose proof (Hclaim world_stop_fails
                (main RATE SAMPLE_LENGTH specgram world_stop_fails).2
                (main RATE SAMPLE_LENGTH specgram world_stop_fails).1
                eq_refl
                (surjective_pairing
                   (main RATE SAMPLE_LENGTH specgram world_stop_fails)))
    as (_ & Hclosed & _).
  congruence.
Qed.
End Run.

(** * Further properties of the script *)

(** ** Edge behaviour of one call *)

Section OneCallEdges.
Context {A : Type}.
Variable RATE : nat.
Variable specgram :
  list Z -> nat -> nat -> window -> nat ->
  result (ndarray A * list Q * list Q).

(** X1. A frame whose time axis is empty makes line 70 divide by zero: the
    call raises [ZeroDivisionError]; the read has been consumed and nothing
    else has changed. *)
Theorem update_fig_empty_time_axis frame im stream (w : World A) d arr fr o :
  input w (cursor w) = Ok d ->
  get_specgram RATE specgram d = Ok (arr, fr, []) ->
  heap w !! im = Some o ->
  update_fig RATE specgram frame im stream w
  = (Raise ZeroDivisionError, with_cursor (S (cursor w)) w).
Proof.
  intros Hin Hsp Hh.
  unfold update_fig, get_sample, get_data, mbind, M_bind, lift, get_array.
  rewrite Hin, Hsp. cbn. by rewrite Hh.
Qed.

(** X2. A frame whose row count differs from the image's makes [np.hstack]
    fail, in the fill-up branch as in the scroll branch: the call raises
    [ValueError]; the read has been consumed and the image is as it was. *)
Theorem update_fig_row_mismatch frame im stream (w : World A) d arr fr tm o :
  input w (cursor w) = Ok d ->
  get_specgram RATE specgram d = Ok (arr, fr, tm) ->
  heap w !! im = Some o ->
  length tm <> 0 ->
  nrows (im_A o) <> nrows arr ->
  update_fig RATE specgram frame im stream w
  = (Raise ValueError, with_cursor (S (cursor w)) w).
Proof.
  intros Hin Hsp Hh Hnz Hr.
  unfold update_fig, get_sample, get_data, mbind, M_bind, lift, get_array.
  rewrite Hin, Hsp. cbn. rewrite Hh, (floordiv_pos _ _ Hnz).
  unfold hstack, slice_cols_from. cbn.
  rewrite (proj2 (Nat.eqb_neq _ _) Hr).
  by destruct (_ <? _).
Qed.

(** X3. A call that raises leaves the plot exactly as it was: the same image
    objects with the same arrays, the same axes, the same animations.  No
    half-updated image is ever stored. *)
Theorem update_fig_failure_keeps_plot frame im stream (w w' : World A) e :
  update_fig RATE specgram frame im stream w = (Raise e, w') ->
  heap w' = heap w /\ axes w' = axes w /\ animations w' = animations w.
Proof.
  intros Hrun.
  destruct (update_fig_cases RATE specgram frame im stream w)
    as [[e' He]|(d & arr & fr & tm & o & _ & _ & _ & _ & _ & Hok)].
  - rewrite He in Hrun. by injection Hrun as _ <-.
  - rewrite Hok in Hrun. discriminate.
Qed.

(** X4. Every call, whether it returns or raises, takes exactly one read
    from the device, and leaves the device as it is: it neither stops nor
    closes the stream, nor terminates PyAudio, nor touches the pending
    ticks. *)
Theorem update_fig_reads_once frame im stream (w w' : World A) r :
  update_fig RATE specgram frame im stream w = (r, w') ->
  cursor w' = S (cursor w) /\
  input w' = input w /\
  device_state w' = device_state w /\
  ticks w' = ticks w.
Proof.
  intros Hrun.
  destruct (update_fig_cases RATE specgram frame im stream w)
    as [[e' He]|(d & arr & fr & tm & o & _ & _ & _ & _ & _ & Hok)].
  - rewrite He in Hrun. by injection Hrun as _ <-.
  - rewrite Hok in Hrun. by injection Hrun as _ <-.
Qed.

(** X5. A call returns normally exactly when the read succeeds, the
    transform succeeds, the image exists, the time axis is not empty and the
    frame has the image's row count. *)
Theorem update_fig_succeeds_iff frame im stream (w : World A) :
  is_ok (update_fig RATE specgram frame im stream w).1 = true <->
  exists d arr fr tm o,
    input w (cursor w) = Ok d /\
    get_specgram RATE specgram d = Ok (arr, fr, tm) /\
    heap w !! im = Some o /\
    length tm <> 0 /\
    nrows (im_A o) = nrows arr.
Proof.
  split.
  - intros Hok.
    destruct (update_fig_cases RATE specgram frame im stream w)
      as [[e' He]|(d & arr & fr & tm & o & Hin & Hsp & Hh & Hnz & Hr & _)].
    + rewrite He in Hok. discriminate.
    + by exists d, arr, fr, tm, o.
  - intros (d & arr & fr & tm & o & Hin & Hsp & Hh & Hnz & Hr).
    by rewrite (update_fig_run RATE specgram frame im stream w d arr fr tm o).
Qed.

(** X6. While the image holds fewer than [SAMPLES_PER_FRAME] frames' worth
    of columns ([shape1 // len(times) < SAMPLES_PER_FRAME]), a push drops
    nothing: every old column stays where it is and the frame's columns
    follow them, whatever the width of the frame. *)
Theorem update_fig_fills frame im stream (w : World A) d arr fr tm o :
  input w (cursor w) = Ok d ->
  get_specgram RATE specgram d = Ok (arr, fr, tm) ->
  heap w !! im = Some o ->
  length tm <> 0 ->
  nrows (im_A o) = nrows arr ->
  shape1 (im_A o) / length tm < SAMPLES_PER_FRAME ->
  exists w' o',
    update_fig RATE specgram frame im stream w = (Ok [im], w') /\
    heap w' !! im = Some o' /\
    shape1 (im_A o') = shape1 (im_A o) + shape1 arr /\
    (forall j, j < shape1 (im_A o) ->
       column (im_A o') j = column (im_A o) j) /\
    (forall i, column (im_A o') (shape1 (im_A o) + i) = column arr i).
Proof.
  intros Hin Hsp Hh Hlen Hrows Hroom.
  eexists _, _. split; [by eapply update_fig_run|].
  split; [cbn; apply lookup_insert_eq|].
  unfold column, shape1 in *. cbn.
  rewrite pushed_fill by done.
  split; [|split].
  - by rewrite length_app.
  - intros j Hj. by rewrite lookup_app_l.
  - intros i. rewrite lookup_app_r by lia. f_equal. lia.
Qed.

(** X7. A push of a frame that has as many columns as time bins never
    shrinks the image, and never widens it by more than the frame. *)
Theorem update_fig_never_shrinks frame im stream (w : World A) d arr fr tm o :
  input w (cursor w) = Ok d ->
  get_specgram RATE specgram d = Ok (arr, fr, tm) ->
  heap w !! im = Some o ->
  length tm <> 0 ->
  shape1 arr = length tm ->
  nrows (im_A o) = nrows arr ->
  exists w' o',
    update_fig RATE specgram frame im stream w = (Ok [im], w') /\
    heap w' !! im = Some o' /\
    shape1 (im_A o) <= shape1 (im_A o') /\
    shape1 (im_A o') <= shape1 (im_A o) + shape1 arr.
Proof.
  intros Hin Hsp Hh Hlen Hcols Hrows.
  eexists _, _. split; [by eapply update_fig_run|].
  split; [cbn; apply lookup_insert_eq|]. cbn.
  destruct (decide (shape1 (im_A o) / length tm < SAMPLES_PER_FRAME))
    as [Hroom|Hfull].
  - unfold shape1 in *. rewrite pushed_fill by done.
    rewrite length_app. lia.
  - assert (Hge : SAMPLES_PER_FRAME <= shape1 (im_A o) / length tm) by lia.
    pose proof (scroll_width _ _ Hlen Hge) as Hwide.
    unfold shape1 in *. rewrite pushed_scroll by done.
    rewrite length_app, length_drop. clear Hfull Hge. lia.
Qed.
End OneCallEdges.

(** ** What the image shows after a run of calls *)

Section Content.
Context {A : Type}.
Variable RATE : nat.
Variable specgram :
  list Z -> nat -> nat -> window -> nat ->
  result (ndarray A * list Q * list Q).

Lemma omap_seq_shift {T} (f : nat -> option T) (k : nat) :
  omap f (seq 1 k) = omap (fun i => f (S i)) (seq 0 k).
Proof.
  rewrite <- seq_shift.
  induction (seq 0 k) as [|x l IH]; [done|].
  cbn. by rewrite IH.
Qed.

Lemma omap_pointwise {T U} (f g : T -> option U) (l : list T) :
  (forall x, f x = g x) -> omap f l = omap g l.
Proof.
  intros Hfg. induction l as [|x l IH]; [done|].
  cbn. by rewrite Hfg, IH.
Qed.

(** The first frame ahead, then the frames ahead of the next world. *)
Lemma frames_ahead_S (w w1 : World A) k d arr fr tm :
  input w (cursor w) = Ok d ->
  get_specgram RATE specgram d = Ok (arr, fr, tm) ->
  input w1 = input w -> cursor w1 = S (cursor w) ->
  frames_ahead RATE specgram w (S k)
  = arr :: frames_ahead RATE specgram w1 k.
Proof.
  intros Hin Hsp Hi Hc. unfold frames_ahead. cbn [seq].
  assert (Hfirst : frame_at RATE specgram w 0 = Some arr)
    by (unfold frame_at; by rewrite Nat.add_0_r, Hin, Hsp).
  change (omap (frame_at RATE specgram w) (0 :: seq 1 k))
    with (match frame_at RATE specgram w 0 with
          | Some a => a :: omap (frame_at RATE specgram w) (seq 1 k)
          | None => omap (frame_at RATE specgram w) (seq 1 k)
          end).
  rewrite Hfirst.
  f_equal. rewrite omap_seq_shift. apply omap_pointwise.
  intros i. unfold frame_at. rewrite Hi, Hc.
  by replace (S (cursor w) + i) with (cursor w + S i) by lia.
Qed.

Lemma side_by_side_app (l1 l2 : list (ndarray A)) :
  side_by_side (l1 ++ l2) = side_by_side l1 ++ side_by_side l2.
Proof. unfold side_by_side. by rewrite fmap_app, concat_app. Qed.

Lemma side_by_side_length (l : list (ndarray A)) nc :
  Forall (fun a => shape1 a = nc) l ->
  length (side_by_side l) = length l * nc.
Proof.
  induction 1 as [|a l Ha _ IH]; [done|].
  unfold side_by_side in *. cbn. rewrite length_app, IH.
  unfold shape1 in Ha. lia.
Qed.

Lemma newest_cons {T} (n : nat) (x : T) (l : list T) :
  n <= length l -> newest n (x :: l) = newest n l.
Proof.
  intros Hn. unfold newest. cbn [length].
  replace (S (length l) - n) with (S (length l - n)) by lia.
  reflexivity.
Qed.

Lemma newest_all {T} (n : nat) (l : list T) :
  length l <= n -> newest n l = l.
Proof.
  intros Hn. unfold newest.
  replace (length l - n) with 0 by lia. reflexivity.
Qed.

(** The image always shows the newest [SAMPLES_PER_FRAME] frames, oldest
    first: those it held, then those pushed. *)
Lemma animate_content an nc : forall frames (w : World A) o held,
  nc <> 0 ->
  heap w !! (anim_fargs an).1 = Some o ->
  columns (im_A o) = side_by_side held ->
  Forall (fun a => shape1 a = nc) held ->
  length held <= SAMPLES_PER_FRAME ->
  feeds RATE specgram (frame_of_shape (nrows (im_A o)) nc) w (length frames)
    = true ->
  exists w' o',
    animate RATE specgram frames [an] w = (Ok tt, w') /\
    heap w' !! (anim_fargs an).1 = Some o' /\
    columns (im_A o')
    = side_by_side
        (newest SAMPLES_PER_FRAME
           (held ++ frames_ahead RATE specgram w (length frames))) /\
    nrows (im_A o') = nrows (im_A o) /\
    cursor w' = cursor w + length frames /\
    input w' = input w.
Proof.
  induction frames as [|frame frames IH];
    intros w o held Hnc Hh Hcols Hheld Hm Hfeed.
  - exists w, o. rewrite animate_nil. cbn [length].
    unfold frames_ahead. cbn. rewrite app_nil_r, newest_all by done.
    repeat split; try done; lia.
  - cbn [length] in Hfeed.
    assert (Hsplit : forall w1 : World A,
               input w1 = input w -> cursor w1 = S (cursor w) ->
               frame_check RATE specgram
                 (frame_of_shape (nrows (im_A o)) nc) (input w (cursor w))
               = true /\
               feeds RATE specgram (frame_of_shape (nrows (im_A o)) nc) w1
                     (length frames) = true)
      by (intros w1 Hi Hc; by apply (feeds_S _ _ _ w w1)).
    destruct (Hsplit (with_cursor (S (cursor w)) w) eq_refl eq_refl)
      as [Hfirst _].
    apply frame_check_inv in Hfirst as (d & arr & fr & tm & Hin & Hsp & HP).
    unfold frame_of_shape in HP.
    apply andb_prop in HP as [HP Htm]. apply andb_prop in HP as [Hr Hc].
    apply Nat.eqb_eq in Hr, Hc, Htm.
    rewrite animate_cons.
    rewrite (update_fig_run RATE specgram frame _ _ w d arr fr tm o Hin Hsp Hh)
      by congruence.
    set (o1 := with_array (pushed (im_A o) arr (length tm)) o).
    set (w1 := with_heap _ _).
    destruct (Hsplit w1 eq_refl eq_refl) as [_ Hrest].
    cbn [length].
    rewrite (frames_ahead_S w w1 _ d arr fr tm Hin Hsp eq_refl eq_refl).
    assert (Hwidth : shape1 (im_A o) / length tm = length held).
    { unfold shape1. rewrite Hcols, (side_by_side_length held nc Hheld), Htm.
      by apply Nat.div_mul. }
    destruct (decide (length held < SAMPLES_PER_FRAME)) as [Hroom|Hfull].
    + destruct (IH w1 o1 (held ++ [arr])) as
        (w' & o' & Hrun & Hh' & Hcols' & Hr' & Hcur' & Hin'); try done.
      * subst w1. cbn. apply lookup_insert_eq.
      * subst o1. cbn. rewrite pushed_fill by (rewrite Hwidth; done).
        rewrite side_by_side_app, Hcols. unfold side_by_side. cbn.
        by rewrite app_nil_r.
      * apply Forall_app. split; [done|]. by constructor.
      * rewrite length_app. cbn. lia.
      * subst o1. cbn. by rewrite pushed_nrows.
      * exists w', o'. split; [done|]. split; [done|].
        rewrite Hcols', <- app_assoc. cbn [app].
        split; [done|]. split; [|split].
        -- rewrite Hr'. subst o1. cbn. apply pushed_nrows.
        -- rewrite Hcur'. subst w1. cbn. lia.
        -- rewrite Hin'. by subst w1.
    + destruct held as [|h held]; [cbn in Hfull; unfold SAMPLES_PER_FRAME in *; lia|].
      apply Forall_cons in Hheld as [Hh0 Hheld].
      destruct (IH w1 o1 (held ++ [arr])) as
        (w' & o' & Hrun & Hh' & Hcols' & Hr' & Hcur' & Hin'); try done.
      * subst w1. cbn. apply lookup_insert_eq.
      * subst o1. cbn. rewrite pushed_scroll by (rewrite Hwidth; lia).
        rewrite side_by_side_app, Hcols. unfold side_by_side. cbn.
        rewrite app_nil_r. f_equal.
        unfold shape1 in Hh0. rewrite Htm, <- Hh0. apply drop_app_length.
      * apply Forall_app. split; [done|]. by constructor.
      * rewrite length_app. cbn in *. lia.
      * subst o1. cbn. by rewrite pushed_nrows.
      * exists w', o'. split; [done|]. split; [done|].
        rewrite Hcols', <- app_assoc. cbn [app].
        split; [|split; [|split]].
        -- f_equal. symmetry. apply newest_cons.
           rewrite length_app. cbn in *. lia.
        -- rewrite Hr'. subst o1. cbn. apply pushed_nrows.
        -- rewrite Hcur'. subst w1. cbn. lia.
        -- rewrite Hin'. by subst w1.
Qed.

(** X8. Starting from an image without columns, after any number of pushes
    of frames of [newCols] columns each, the image shows exactly the newest
    [SAMPLES_PER_FRAME] of the frames pushed (all of them while there are
    fewer), each one whole, in the order of arrival: no frame is skipped,
    none is shown twice, none is cut. *)
Theorem animate_shows_newest_frames frames an newCols (w : World A) o :
  0 < newCols ->
  heap w !! (anim_fargs an).1 = Some o ->
  columns (im_A o) = [] ->
  feeds RATE specgram (frame_of_shape (nrows (im_A o)) newCols) w
        (length frames) = true ->
  exists w' o',
    animate RATE specgram frames [an] w = (Ok tt, w') /\
    heap w' !! (anim_fargs an).1 = Some o' /\
    columns (im_A o')
    = side_by_side
        (newest SAMPLES_PER_FRAME
           (frames_ahead RATE specgram w (length frames))).
Proof.
  intros Hnc Hh Hempty Hfeed.
  destruct (animate_content an newCols frames w o []) as
    (w' & o' & Hrun & Hh' & Hcols' & _); try done; try lia.
  - unfold SAMPLES_PER_FRAME. cbn. lia.
  - by exists w', o'.
Qed.

(** A run of calls on frames that can be pushed completes, one read per
    call. *)
Lemma animate_completes_reads an : forall frames (w : World A) o,
  heap w !! (anim_fargs an).1 = Some o ->
  feeds RATE specgram (frame_of_rows (nrows (im_A o))) w (length frames)
    = true ->
  exists w' o',
    animate RATE specgram frames [an] w = (Ok tt, w') /\
    heap w' !! (anim_fargs an).1 = Some o' /\
    nrows (im_A o') = nrows (im_A o) /\
    cursor w' = cursor w + length frames /\
    input w' = input w.
Proof.
  induction frames as [|frame frames IH]; intros w o Hh Hfeed.
  - exists w, o. rewrite animate_nil. cbn [length].
    repeat split; try done; lia.
  - cbn [length] in Hfeed.
    assert (Hsplit : forall w1 : World A,
               input w1 = input w -> cursor w1 = S (cursor w) ->
               frame_check RATE specgram
                 (frame_of_rows (nrows (im_A o))) (input w (cursor w))
               = true /\
               feeds RATE specgram (frame_of_rows (nrows (im_A o))) w1
                     (length frames) = true)
      by (intros w1 Hi Hc; by apply (feeds_S _ _ _ w w1)).
    destruct (Hsplit (with_cursor (S (cursor w)) w) eq_refl eq_refl)
      as [Hfirst _].
    apply frame_check_inv in Hfirst as (d & arr & fr & tm & Hin & Hsp & HP).
    unfold frame_of_rows in HP.
    apply andb_prop in HP as [Hr Htm].
    apply Nat.eqb_eq in Hr. apply negb_true_iff, Nat.eqb_neq in Htm.
    rewrite animate_cons.
    rewrite (update_fig_run RATE specgram frame _ _ w d arr fr tm o Hin Hsp Hh)
      by congruence.
    set (o1 := with_array (pushed (im_A o) arr (length tm)) o).
    set (w1 := with_heap _ _).
    destruct (Hsplit w1 eq_refl eq_refl) as [_ Hrest].
    destruct (IH w1 o1) as (w' & o' & Hrun & Hh' & Hr' & Hcur' & Hin').
    + subst w1. cbn. apply lookup_insert_eq.
    + subst o1. cbn. by rewrite pushed_nrows.
    + exists w', o'. split; [done|]. split; [done|]. split; [|split].
      * rewrite Hr'. subst o1. cbn. apply pushed_nrows.
      * rewrite Hcur'. subst w1. cbn. lia.
      * rewrite Hin'. by subst w1.
Qed.

(** X9. A run of [k] calls of [update_fig] on frames that have the image's
    row count and a time axis that is not empty completes and has taken
    exactly [k] reads, one per call, whatever the image held before. *)
Theorem animate_reads_one_per_call frames an (w : World A) o :
  heap w !! (anim_fargs an).1 = Some o ->
  feeds RATE specgram (frame_of_rows (nrows (im_A o))) w (length frames)
    = true ->
  exists w',
    animate RATE specgram frames [an] w = (Ok tt, w') /\
    cursor w' = cursor w + length frames /\
    input w' = input w.
Proof.
  intros Hh Hfeed.
  destruct (animate_completes_reads an frames w o Hh Hfeed)
    as (w' & o' & Hrun & _ & _ & Hcur & Hin).
  by exists w'.
Qed.
End Content.

(** ** Start-up, shutdown and the whole program *)

Section Program.
Context {A : Type}.
Variables RATE SAMPLE_LENGTH : nat.
Variable specgram :
  list Z -> nat -> nat -> window -> nat ->
  result (ndarray A * list Q * list Q).

(** *** What the plot code cannot change *)

Section Views.
Context {B : Type} (view : World A -> B).
Hypothesis Hblind : plot_blind view.

Lemma keeps_view_ret {T} (v : T) : keeps view (mret v).
Proof. by intros w. Qed.

Lemma keeps_view_lift {T} (r : result T) : keeps view (lift r).
Proof. by intros w. Qed.

Lemma keeps_view_bind {T U} (m : M A T) (f : T -> M A U) :
  keeps view m -> (forall v, keeps view (f v)) -> keeps view (m ≫= f).
Proof.
  intros Hm Hf w. unfold mbind, M_bind.
  specialize (Hm w). destruct (m w) as [[v|e] w1]; cbn in *; [|done].
  by rewrite Hf.
Qed.

Lemma keeps_view_for_each {T} (l : list T) (body : T -> M A unit) :
  (forall x, keeps view (body x)) -> keeps view (for_each l body).
Proof.
  intros Hb. induction l as [|x l IH]; cbn [for_each].
  - apply keeps_view_ret.
  - apply keeps_view_bind; [apply Hb | by intros _].
Qed.

Lemma keeps_view_update_fig frame im stream :
  keeps view (update_fig RATE specgram frame im stream).
Proof using Hblind.
  destruct Hblind as (Hc & Hh & _).
  intros w.
  destruct (update_fig_cases RATE specgram frame im stream w)
    as [[e He]|(d & arr & fr & tm & o & _ & _ & _ & _ & _ & Hok)].
  - rewrite He. cbn. apply Hc.
  - rewrite Hok. cbn. by rewrite Hh, Hc.
Qed.

Lemma keeps_view_animate frames anims :
  keeps view (animate RATE specgram frames anims).
Proof using Hblind.
  apply keeps_view_for_each. intros frame.
  apply keeps_view_for_each. intros an.
  apply keeps_view_bind;
    [apply keeps_view_update_fig | intros _; apply keeps_view_ret].
Qed.

Lemma keeps_view_plt_show : keeps view (plt_show RATE specgram).
Proof using Hblind.
  intros w. unfold plt_show.
  rewrite (keeps_view_bind _ _ (keeps_view_animate _ _)
             (fun _ => keeps_view_lift _) (with_ticks [] w)).
  by destruct Hblind as (_ & _ & _ & _ & Ht).
Qed.

Lemma keeps_view_first_plot stream :
  keeps view (first_plot RATE specgram stream).
Proof using Hblind.
  destruct Hblind as (Hc & Hh & Ha & Hn & _).
  unfold first_plot.
  apply keeps_view_bind; [intros w; apply Ha | intros fig].
  apply keeps_view_bind; [apply keeps_view_ret | intros ax].
  apply keeps_view_bind; [intros w; apply Hc | intros data].
  apply keeps_view_bind;
    [apply keeps_view_lift | intros [[arr_2d freqs] times]].
  do 4 (apply keeps_view_bind; [apply keeps_view_lift | intros ?]).
  apply keeps_view_bind;
    [intros w; unfold imshow; cbn; by rewrite Ha, Hh | intros im].
  do 4 (apply keeps_view_bind; [intros w; apply Ha | intros _]).
  apply keeps_view_ret.
Qed.

Lemma keeps_view_new_FuncAnimation fig fargs interval blit :
  keeps view
    (new_FuncAnimation fig (update_fig RATE specgram) fargs interval blit).
Proof using Hblind.
  intros w. unfold new_FuncAnimation.
  set (w1 := with_animations _ w).
  assert (Hw1 : view w = view w1)
    by (destruct Hblind as (_ & _ & _ & Hn & _); subst w1; by rewrite Hn).
  rewrite Hw1.
  apply keeps_view_bind; [|intros _; apply keeps_view_ret].
  apply keeps_view_for_each. intros frame.
  apply keeps_view_bind;
    [apply keeps_view_update_fig | intros _; apply keeps_view_ret].
Qed.

Lemma keeps_view_make_plot stream :
  keeps view (make_plot RATE SAMPLE_LENGTH specgram stream).
Proof using Hblind.
  unfold make_plot.
  apply keeps_view_bind; [apply keeps_view_first_plot | intros [fig im]].
  apply keeps_view_new_FuncAnimation.
Qed.
End Views.

Lemma device_state_blind : plot_blind (device_state (A:=A)).
Proof. by repeat split. Qed.

Lemma release_fails_blind : plot_blind (release_fails (A:=A)).
Proof. by repeat split. Qed.

Lemma input_blind : plot_blind (input (A:=A)).
Proof. by repeat split. Qed.

(** The [finally] block, call by call. *)
Lemma finaliser_result stream pa (w : World A) :
  (stop_stream stream ;; close stream ;; terminate pa) w =
  if release_fails w StopStream then (Raise OSError, w)
  else if release_fails w CloseStream
       then (Raise OSError, with_device (pa_live w) (stream_open w) false w)
       else if release_fails w Terminate
            then (Raise OSError, with_device (pa_live w) false false w)
            else (Ok tt, with_device false false false w).
Proof.
  unfold mbind, M_bind, stop_stream, close, terminate.
  destruct (release_fails w StopStream); [done|]. cbn.
  destruct (release_fails w CloseStream); [done|]. cbn.
  by destruct (release_fails w Terminate).
Qed.

(** [main] once the device is open: the body, then the [finally] block on
    the world the body left. *)
Lemma main_run (w : World A) :
  device_present w = true ->
  main RATE SAMPLE_LENGTH specgram w =
  try_finally
    (make_plot RATE SAMPLE_LENGTH specgram the_stream
       ≫= fun _ => plt_show RATE specgram)
    (stop_stream the_stream ;; close the_stream ;; terminate the_pyaudio)
    (with_device true true true w).
Proof.
  intros Hdev. unfold main, open_mic.
  unfold mbind at 1. unfold M_bind at 1. by rewrite Hdev.
Qed.

Lemma body_keeps {B} (view : World A -> B) :
  plot_blind view ->
  keeps view (make_plot RATE SAMPLE_LENGTH specgram the_stream
                ≫= fun _ => plt_show RATE specgram).
Proof.
  intros Hb. apply keeps_view_bind.
  - by apply keeps_view_make_plot.
  - intros _. by apply keeps_view_plt_show.
Qed.

(** X10. Without an input device [open_mic] raises before the [try] is
    entered: [main] raises the same error, no release call runs and the
    world is untouched. *)
Theorem main_without_device (w : World A) :
  device_present w = false ->
  main RATE SAMPLE_LENGTH specgram w = (Raise DeviceUnavailable, w).
Proof.
  intros Hdev. unfold main, open_mic.
  unfold mbind at 1. unfold M_bind at 1. by rewrite Hdev.
Qed.

(** X11. The release calls run in the order stop, close, terminate and end
    at the first one that raises: [main] then raises [OSError], whatever the
    body had returned or raised, and the later release calls have not
    happened. *)
Theorem main_release_stops_at_first_failure (w : World A) :
  device_present w = true ->
  exists r w',
    main RATE SAMPLE_LENGTH specgram w = (r, w') /\
    (release_fails w StopStream = true ->
       r = Raise OSError /\ device_state w' = (true, true, true)) /\
    (release_fails w StopStream = false ->
     release_fails w CloseStream = true ->
       r = Raise OSError /\ device_state w' = (true, true, false)) /\
    (release_fails w StopStream = false ->
     release_fails w CloseStream = false ->
     release_fails w Terminate = true ->
       r = Raise OSError /\ device_state w' = (true, false, false)).
Proof.
  intros Hdev. rewrite main_run by done. unfold try_finally.
  pose proof (body_keeps _ device_state_blind (with_device true true true w))
    as Hstate.
  pose proof (body_keeps _ release_fails_blind (with_device true true true w))
    as Hfails.
  set (body := make_plot RATE SAMPLE_LENGTH specgram the_stream
                ≫= fun _ => plt_show RATE specgram) in *.
  destruct (body (with_device true true true w)) as [r w1].
  cbn in Hstate, Hfails.
  rewrite finaliser_result, Hfails.
  unfold device_state in Hstate. injection Hstate as Hpa Hopen Hact.
  destruct (release_fails w StopStream) eqn:E1.
  { eexists _, _. split; [reflexivity|].
    repeat split; try done. unfold device_state. by rewrite Hpa, Hopen, Hact. }
  destruct (release_fails w CloseStream) eqn:E2.
  { eexists _, _. split; [reflexivity|].
    repeat split; try done. unfold device_state. cbn. by rewrite Hpa, Hopen. }
  destruct (release_fails w Terminate) eqn:E3.
  { eexists _, _. split; [reflexivity|].
    repeat split; try done. unfold device_state. cbn. by rewrite Hpa. }
  eexists _, _. split; [reflexivity|]. by repeat split.
Qed.

(** *** The plot that [make_plot] sets up *)

(** The world after the first part of [make_plot]. *)
Lemma first_plot_result stream (w : World A) d arr fr tm t0 t1 f1 f0 :
  input w (cursor w) = Ok d ->
  get_specgram RATE specgram d = Ok (arr, fr, tm) ->
  first_item tm = Ok t0 -> last_item tm = Ok t1 ->
  last_item fr = Ok f1 -> first_item fr = Ok f0 ->
  first_plot RATE specgram stream w =
  (Ok (the_figure, fresh (dom (heap w))),
   with_axes
     (mk_Axes [fresh (dom (heap w))] "Time (s)" "Frequency (Hz)"
              "Real-Time Spectogram" (f0, f1))
     (with_heap
        (<[fresh (dom (heap w)) :=
             mk_AxesImage arr
               (t0, (t1 * inject_Z (Z.of_nat SAMPLES_PER_FRAME))%Q, f1, f0)
               "auto" "none" "jet" (mk_LogNorm (1 # 100) 1)]> (heap w))
        (with_cursor (S (cursor w)) w))).
Proof.
  intros Hin Hsp Ht0 Ht1 Hf1 Hf0.
  unfold first_plot, get_sample, get_data, mbind, M_bind, lift, plt_figure,
    gca, mret, M_ret.
  cbn. rewrite Hin, Hsp, Ht0, Ht1, Hf1, Hf0. reflexivity.
Qed.

(** The world after a [make_plot] whose first read, or its transform,
    fails: a blank figure, one read taken, nothing else. *)
Lemma make_plot_failure stream (w : World A) e :
  input w (cursor w) = Raise e \/
  (exists d, input w (cursor w) = Ok d /\
             get_specgram RATE specgram d = Raise e) ->
  make_plot RATE SAMPLE_LENGTH specgram stream w =
  (Raise e,
   with_cursor (S (cursor w))
     (with_axes
        (mk_Axes [] EmptyString EmptyString EmptyString (0, 1)%Q) w)).
Proof.
  unfold make_plot, first_plot, get_sample, get_data, mbind, M_bind, lift,
    plt_figure, gca, mret, M_ret.
  intros [Hin|(d & Hin & Hsp)]; cbn; rewrite Hin; [done|]. by rewrite Hsp.
Qed.

(** X16. A first frame whose time axis or frequency axis is empty makes
    the computation of the extent fail ([times[0]], [freqs[-1]]):
    [make_plot] raises [IndexError] before any image is created. *)
Theorem make_plot_empty_axis stream (w : World A) d arr fr tm :
  input w (cursor w) = Ok d ->
  get_specgram RATE specgram d = Ok (arr, fr, tm) ->
  tm = [] \/ fr = [] ->
  exists w',
    make_plot RATE SAMPLE_LENGTH specgram stream w = (Raise IndexError, w') /\
    heap w' = heap w /\
    animations w' = animations w.
Proof.
  intros Hin Hsp Hempty.
  unfold make_plot, first_plot, get_sample, get_data, mbind, M_bind, lift,
    plt_figure, gca, mret, M_ret.
  cbn. rewrite Hin, Hsp.
  destruct Hempty as [-> | ->].
  - cbn. by eexists.
  - destruct tm as [|t tm']; [cbn; by eexists|].
    cbn [first_item]. unfold last_item at 1.
    destruct (last (t :: tm')) as [x|] eqn:E.
    + cbn. by eexists.
    + by eexists.
Qed.

(** X12. When the first read, or the transform of what it delivered, fails,
    [make_plot] raises that very error; it has then created no image and
    registered no animation. *)
Theorem make_plot_first_frame_failure stream (w : World A) e :
  input w (cursor w) = Raise e \/
  (exists d, input w (cursor w) = Ok d /\
             get_specgram RATE specgram d = Raise e) ->
  exists w',
    make_plot RATE SAMPLE_LENGTH specgram stream w = (Raise e, w') /\
    heap w' = heap w /\
    animations w' = animations w /\
    ax_images (axes w') = [].
Proof.
  intros Hfail. rewrite (make_plot_failure stream w e Hfail).
  by eexists.
Qed.

(** X13. A failure of the first read, or of its transform, comes out of
    [main] unchanged, after the stream has been stopped and closed and
    PyAudio terminated (the release calls not failing): start-up errors are
    neither swallowed nor replaced, and the device is not left open. *)
Theorem main_first_frame_failure (w : World A) e :
  device_present w = true ->
  (forall c, release_fails w c = false) ->
  input w (cursor w) = Raise e \/
  (exists d, input w (cursor w) = Ok d /\
             get_specgram RATE specgram d = Raise e) ->
  exists w',
    main RATE SAMPLE_LENGTH specgram w = (Raise e, w') /\
    released w' /\
    heap w' = heap w /\
    animations w' = animations w.
Proof.
  intros Hdev Hok Hfail. rewrite main_run by done.
  unfold try_finally. unfold mbind at 1. unfold M_bind at 1.
  rewrite (make_plot_failure the_stream (with_device true true true w) e)
    by done.
  rewrite finaliser_result. cbn.
  rewrite !Hok. eexists. split; [reflexivity|]. by repeat split.
Qed.

(** *** The calls made while the animation is constructed *)

Lemma for_each_pointwise {T} (l : list T) (b1 b2 : T -> M A unit) :
  (forall x w, b1 x w = b2 x w) ->
  forall w, for_each l b1 w = for_each l b2 w.
Proof.
  intros Hb. induction l as [|x l IH]; intros w; [done|].
  cbn [for_each]. unfold mbind, M_bind. rewrite Hb.
  destruct (b2 x w) as [[v|e] w1]; [apply IH | done].
Qed.

(** The constructor runs the display loop for [init_draws] ticks of
    number 0. *)
Lemma new_FuncAnimation_run fig im stream interval blit (w : World A) :
  new_FuncAnimation fig (update_fig RATE specgram) (im, stream) interval blit w
  = match animate RATE specgram (replicate (init_draws w) 0%Z)
            [mk_FuncAnimation (im, stream) interval blit]
            (with_animations
               (animations w ++ [mk_FuncAnimation (im, stream) interval blit])
               w) with
    | (Ok _, w') => (Ok (mk_FuncAnimation (im, stream) interval blit), w')
    | (Raise e, w') => (Raise e, w')
    end.
Proof.
  unfold new_FuncAnimation, animate.
  unfold mbind at 1. unfold M_bind at 1.
  rewrite (for_each_pointwise _ _
             (fun frame =>
                for_each [mk_FuncAnimation (im, stream) interval blit]
                  (fun an =>
                     update_fig RATE specgram frame (anim_fargs an).1
                       (anim_fargs an).2 ≫= fun _ => mret tt))).
  - by destruct (for_each _ _ _) as [[v|e] w1].
  - intros frame w0. cbn [for_each anim_fargs fst snd].
    unfold mbind, M_bind.
    by destruct (update_fig _ _ _ _ _ _) as [[v|e] w1].
Qed.

(** *** The plot during the display loop *)

Lemma same_plot_refl im (w : World A) : same_plot_but_array im w w.
Proof. by repeat split. Qed.

Lemma same_plot_trans im (w1 w2 w3 : World A) :
  same_plot_but_array im w1 w2 -> same_plot_but_array im w2 w3 ->
  same_plot_but_array im w1 w3.
Proof.
  intros (Ha & Hn & Hat & Hh) (Ha' & Hn' & Hat' & Hh').
  split; [congruence|]. split; [congruence|]. split.
  - intros l. by rewrite Hat', Hat.
  - intros l Hl. by rewrite Hh', Hh.
Qed.

Lemma update_fig_same_plot frame im stream (w : World A) :
  same_plot_but_array im w (update_fig RATE specgram frame im stream w).2.
Proof.
  destruct (update_fig_cases RATE specgram frame im stream w)
    as [[e He]|(d & arr & fr & tm & o & _ & _ & Hh & _ & _ & Hok)].
  - rewrite He. by repeat split.
  - rewrite Hok. repeat split; cbn.
    + intros l. destruct (decide (l = im)) as [->|Hne].
      * by rewrite lookup_insert_eq, Hh.
      * by rewrite lookup_insert_ne.
    + intros l Hne. by rewrite lookup_insert_ne.
Qed.

Lemma animate_same_plot an : forall frames (w : World A),
  same_plot_but_array (anim_fargs an).1 w
    (animate RATE specgram frames [an] w).2.
Proof.
  induction frames as [|frame frames IH]; intros w.
  - apply same_plot_refl.
  - rewrite animate_cons.
    pose proof (update_fig_same_plot frame (anim_fargs an).1
                  (anim_fargs an).2 w) as Hstep.
    destruct (update_fig _ _ _ _ _ _) as [[v|e] w1]; cbn in Hstep; [|done].
    eapply same_plot_trans; [exact Hstep | apply IH].
Qed.

(** [make_plot] returns when the first frame and the frames that the
    constructor's calls read can all be pushed. *)
Lemma make_plot_result stream (w : World A) d arr fr tm t0 t1 f1 f0 :
  input w (cursor w) = Ok d ->
  get_specgram RATE specgram d = Ok (arr, fr, tm) ->
  first_item tm = Ok t0 -> last_item tm = Ok t1 ->
  last_item fr = Ok f1 -> first_item fr = Ok f0 ->
  feeds RATE specgram (frame_of_rows (nrows arr)) w (S (init_draws w))
    = true ->
  exists w1 w2,
    first_plot RATE specgram stream w
      = (Ok (the_figure, fresh (dom (heap w))), w1) /\
    axes w1
    = mk_Axes [fresh (dom (heap w))] "Time (s)" "Frequency (Hz)"
              "Real-Time Spectogram" (f0, f1) /\
    attributes <$> heap w1 !! fresh (dom (heap w))
    = Some ((t0, (t1 * inject_Z (Z.of_nat SAMPLES_PER_FRAME))%Q, f1, f0),
            "auto", "none", "jet", mk_LogNorm (1 # 100) 1) /\
    make_plot RATE SAMPLE_LENGTH specgram stream w
    = (Ok (mk_FuncAnimation (fresh (dom (heap w)), stream) SAMPLE_LENGTH true),
       w2) /\
    same_plot_but_array (fresh (dom (heap w)))
      (with_animations
         (animations w1
          ++ [mk_FuncAnimation (fresh (dom (heap w)), stream)
                SAMPLE_LENGTH true]) w1)
      w2 /\
    cursor w2 = cursor w + S (init_draws w).
Proof.
  intros Hin Hsp Ht0 Ht1 Hf1 Hf0 Hfeed.
  pose proof (first_plot_result stream w d arr fr tm t0 t1 f1 f0
                Hin Hsp Ht0 Ht1 Hf1 Hf0) as Hfirst.
  set (im := fresh (dom (heap w))) in *.
  set (o1 := mk_AxesImage arr _ _ _ _ _) in Hfirst.
  set (w1 := with_axes _ _) in Hfirst.
  set (an := mk_FuncAnimation (im, stream) SAMPLE_LENGTH true).
  exists w1.
  rewrite (make_plot_after_first_plot RATE SAMPLE_LENGTH specgram stream
             w w1 the_figure im Hfirst).
  rewrite new_FuncAnimation_run. fold an.
  set (w1' := with_animations (animations w1 ++ [an]) w1).
  destruct (animate_completes_reads RATE specgram an
              (replicate (init_draws w1) 0%Z) w1' o1)
    as (w2 & o2 & Hrun & Hh2 & Hr2 & Hcur2 & Hin2).
  - subst w1' w1. cbn. apply lookup_insert_eq.
  - rewrite length_replicate. subst o1. cbn [im_A].
    destruct (feeds_S RATE specgram (frame_of_rows (nrows arr)) w w1'
                (init_draws w)) as [_ Hrest];
      [reflexivity | reflexivity | exact Hfeed | exact Hrest].
  - exists w2.
    pose proof (animate_same_plot an (replicate (init_draws w1) 0%Z) w1')
      as Hsame.
    rewrite Hrun in *. cbn [snd] in Hsame.
    split; [done|]. split; [done|].
    split; [subst w1; cbn; by rewrite lookup_insert_eq|].
    split; [done|]. split; [exact Hsame|].
    rewrite Hcur2, length_replicate. subst w1' w1. cbn. lia.
Qed.

(** X14. When [make_plot] returns, the axes hold one image, with the extent
    [(times[0], times[-1] * SAMPLES_PER_FRAME, freqs[-1], freqs[0])] of the
    first frame, colour map [jet], a logarithmic norm from 0.01 to 1, the
    two axis labels and the title; the y axis runs from [freqs[0]] to
    [freqs[-1]], the inversion that the extent brings being undone by
    [invert_yaxis].  The calls of [update_fig] made by the constructor of
    the animation have not changed any of this, and no later run of
    [update_fig] calls does, complete or cut short by an error: the extent
    is never recomputed from later frames. *)
Theorem plot_setup_survives stream (w : World A) d arr fr tm t0 t1 f1 f0
    frames :
  input w (cursor w) = Ok d ->
  get_specgram RATE specgram d = Ok (arr, fr, tm) ->
  first_item tm = Ok t0 -> last_item tm = Ok t1 ->
  last_item fr = Ok f1 -> first_item fr = Ok f0 ->
  feeds RATE specgram (frame_of_rows (nrows arr)) w (S (init_draws w))
    = true ->
  exists an w2,
    make_plot RATE SAMPLE_LENGTH specgram stream w = (Ok an, w2) /\
    anim_fargs an = (fresh (dom (heap w)), stream) /\
    axes (animate RATE specgram frames [an] w2).2
    = mk_Axes [fresh (dom (heap w))] "Time (s)" "Frequency (Hz)"
              "Real-Time Spectogram" (f0, f1) /\
    attributes
      <$> heap (animate RATE specgram frames [an] w2).2
          !! fresh (dom (heap w))
    = Some ((t0, (t1 * inject_Z (Z.of_nat SAMPLES_PER_FRAME))%Q, f1, f0),
            "auto", "none", "jet", mk_LogNorm (1 # 100) 1).
Proof.
  intros Hin Hsp Ht0 Ht1 Hf1 Hf0 Hfeed.
  destruct (make_plot_result stream w d arr fr tm t0 t1 f1 f0
              Hin Hsp Ht0 Ht1 Hf1 Hf0 Hfeed)
    as (w1 & w2 & _ & Hax1 & Hat1 & Hrun & (Hax2 & _ & Hat2 & _) & _).
  eexists _, w2. split; [exact Hrun|]. split; [reflexivity|].
  destruct (animate_same_plot
              (mk_FuncAnimation (fresh (dom (heap w)), stream)
                 SAMPLE_LENGTH true) frames w2) as (Hax & _ & Hat & _).
  cbn [anim_fargs fst] in Hat.
  split.
  - by rewrite Hax, Hax2.
  - by rewrite Hat, Hat2.
Qed.

(** *** Frames of several runs *)

Lemma forallb_seq_offset (p : nat -> bool) (a c b : nat) :
  forallb p (seq (a + c) b) = forallb (fun i => p (a + i)) (seq c b).
Proof.
  revert c. induction b as [|b IH]; intros c; [done|].
  cbn [seq forallb]. f_equal.
  by rewrite <- IH, Nat.add_succ_r.
Qed.

Lemma forallb_seq_from (p : nat -> bool) (a b : nat) :
  forallb p (seq a b) = forallb (fun i => p (a + i)) (seq 0 b).
Proof. by rewrite <- forallb_seq_offset, Nat.add_0_r. Qed.

Lemma omap_seq_offset {T} (f : nat -> option T) (a c b : nat) :
  omap f (seq (a + c) b) = omap (fun i => f (a + i)) (seq c b).
Proof.
  revert c. induction b as [|b IH]; intros c; [done|].
  cbn [seq]. cbn.
  by rewrite <- IH, Nat.add_succ_r.
Qed.

Lemma omap_seq_from {T} (f : nat -> option T) (a b : nat) :
  omap f (seq a b) = omap (fun i => f (a + i)) (seq 0 b).
Proof. by rewrite <- omap_seq_offset, Nat.add_0_r. Qed.

(** The reads of two runs that follow each other. *)
Lemma feeds_split P (w w' : World A) a b :
  input w' = input w -> cursor w' = cursor w + a ->
  feeds RATE specgram P w (a + b) = true ->
  feeds RATE specgram P w a = true /\ feeds RATE specgram P w' b = true.
Proof.
  intros Hi Hc. unfold feeds.
  rewrite seq_app, forallb_app. intros [Ha Hb]%andb_prop.
  split; [done|]. rewrite <- Hb.
  cbn [Nat.add]. rewrite (forallb_seq_from _ a b). apply forallb_pointwise.
  intros i. rewrite Hi, Hc. do 2 f_equal. lia.
Qed.

Lemma feeds_prefix P (w : World A) a b :
  feeds RATE specgram P w (a + b) = true -> feeds RATE specgram P w a = true.
Proof.
  unfold feeds. rewrite seq_app, forallb_app. by intros [Ha _]%andb_prop.
Qed.

Lemma frames_ahead_app (w w' : World A) a b :
  input w' = input w -> cursor w' = cursor w + a ->
  frames_ahead RATE specgram w (a + b)
  = frames_ahead RATE specgram w a ++ frames_ahead RATE specgram w' b.
Proof.
  intros Hi Hc. unfold frames_ahead.
  rewrite seq_app, omap_app. f_equal.
  cbn [Nat.add]. rewrite (omap_seq_from _ a b). apply omap_pointwise.
  intros i. unfold frame_at. rewrite Hi, Hc.
  by replace (cursor w + (a + i)) with (cursor w + a + i) by lia.
Qed.

Lemma frames_ahead_shapes nr nc (w : World A) k :
  feeds RATE specgram (frame_of_shape nr nc) w k = true ->
  Forall (fun a => shape1 a = nc) (frames_ahead RATE specgram w k).
Proof.
  unfold feeds, frames_ahead. intros Hfeed.
  apply Forall_forall. intros a [i [Hi Ha]]%list_elem_of_omap.
  rewrite forallb_forall in Hfeed.
  specialize (Hfeed i (proj1 (list_elem_of_In _ _) Hi)).
  apply frame_check_inv in Hfeed as (d & arr & fr & tm & Hin & Hsp & HP).
  unfold frame_at in Ha. rewrite Hin, Hsp in Ha. injection Ha as <-.
  unfold frame_of_shape in HP.
  apply andb_prop in HP as [HP _]. apply andb_prop in HP as [_ Hc].
  by apply Nat.eqb_eq in Hc.
Qed.

Lemma newest_length {T} n (l : list T) : length (newest n l) <= n.
Proof. unfold newest. rewrite length_drop. lia. Qed.

Lemma newest_app_newest {T} n (l1 l2 : list T) :
  newest n (newest n l1 ++ l2) = newest n (l1 ++ l2).
Proof.
  unfold newest.
  rewrite <- (drop_app_le l1 l2 (length l1 - n)) by lia.
  rewrite drop_drop. f_equal.
  rewrite length_drop, length_app. lia.
Qed.

(** The image shows the newest [SAMPLES_PER_FRAME] frames of all that were
    pushed so far, and goes on doing so. *)
Lemma animate_history an nc frames (w : World A) o hist :
  nc <> 0 ->
  heap w !! (anim_fargs an).1 = Some o ->
  columns (im_A o) = side_by_side (newest SAMPLES_PER_FRAME hist) ->
  Forall (fun a => shape1 a = nc) hist ->
  feeds RATE specgram (frame_of_shape (nrows (im_A o)) nc) w (length frames)
    = true ->
  exists w' o',
    animate RATE specgram frames [an] w = (Ok tt, w') /\
    heap w' !! (anim_fargs an).1 = Some o' /\
    columns (im_A o')
    = side_by_side
        (newest SAMPLES_PER_FRAME
           (hist ++ frames_ahead RATE specgram w (length frames))) /\
    nrows (im_A o') = nrows (im_A o) /\
    cursor w' = cursor w + length frames /\
    input w' = input w.
Proof.
  intros Hnc Hh Hcols Hhist Hfeed.
  destruct (animate_content RATE specgram an nc frames w o
              (newest SAMPLES_PER_FRAME hist))
    as (w' & o' & Hrun & Hh' & Hcols' & Hrest); try done.
  - unfold newest. by apply Forall_drop.
  - apply newest_length.
  - exists w', o'. split; [done|]. split; [done|].
    by rewrite Hcols', newest_app_newest.
Qed.

Lemma update_fig_ticks frame im stream (w : World A) :
  ticks (update_fig RATE specgram frame im stream w).2 = ticks w.
Proof.
  destruct (update_fig_cases RATE specgram frame im stream w)
    as [[e He]|(d & arr & fr & tm & o & _ & _ & _ & _ & _ & Hok)].
  - by rewrite He.
  - by rewrite Hok.
Qed.

Lemma animate_ticks an : forall frames (w : World A),
  ticks (animate RATE specgram frames [an] w).2 = ticks w.
Proof.
  induction frames as [|frame frames IH]; intros w; [done|].
  rewrite animate_cons.
  pose proof (update_fig_ticks frame (anim_fargs an).1 (anim_fargs an).2 w)
    as Hstep.
  destruct (update_fig _ _ _ _ _ _) as [[v|e] w1]; cbn in Hstep; [|done].
  by rewrite IH.
Qed.

Lemma show_fault_blind : plot_blind (show_fault (A:=A)).
Proof. by repeat split. Qed.

(** X15. A whole run of [main] that nothing disturbs: the device is there,
    no animation was registered before, every read up to the last tick
    gives a frame of the same shape, the GUI does not fail and the release
    calls do not fail.  Then [main] returns normally with the device
    released.  It has taken one read for the first frame in [make_plot],
    one for each call of [update_fig] that the constructor of the animation
    makes, and one per tick; the image shows the newest [SAMPLES_PER_FRAME]
    of all frames read, the first one included, oldest first. *)
Theorem main_runs_to_the_end (w : World A) d arr fr tm newCols :
  device_present w = true ->
  (forall c, release_fails w c = false) ->
  show_fault w = None ->
  animations w = [] ->
  input w (cursor w) = Ok d ->
  get_specgram RATE specgram d = Ok (arr, fr, tm) ->
  fr <> [] ->
  0 < newCols ->
  feeds RATE specgram (frame_of_shape (nrows arr) newCols) w
        (S (init_draws w + length (ticks w))) = true ->
  exists w' o',
    main RATE SAMPLE_LENGTH specgram w = (Ok tt, w') /\
    released w' /\
    cursor w' = cursor w + S (init_draws w + length (ticks w)) /\
    heap w' !! fresh (dom (heap w)) = Some o' /\
    nrows (im_A o') = nrows arr /\
    columns (im_A o')
    = side_by_side
        (newest SAMPLES_PER_FRAME
           (frames_ahead RATE specgram w
              (S (init_draws w + length (ticks w))))).
Proof.
  intros Hdev Hok Hshow Hanims Hin Hsp Hfr Hnc Hfeed.
  (* the first frame has the fed shape *)
  assert (Hshape : shape1 arr = newCols /\ length tm = newCols).
  { unfold feeds in Hfeed. cbn [seq forallb] in Hfeed.
    apply andb_prop in Hfeed as [Hfirst _].
    rewrite Nat.add_0_r in Hfirst. unfold frame_check in Hfirst.
    rewrite Hin, Hsp in Hfirst. unfold frame_of_shape in Hfirst.
    apply andb_prop in Hfirst as [Hfirst Htm].
    apply andb_prop in Hfirst as [_ Hc].
    by apply Nat.eqb_eq in Hc, Htm. }
  destruct Hshape as [Hcols Htm].
  assert (Htm' : tm <> []) by (intros ->; cbn in Htm; lia).
  destruct (first_item_ok tm Htm') as [t0 Ht0].
  destruct (last_item_ok tm Htm') as [t1 Ht1].
  destruct (last_item_ok fr Hfr) as [f1 Hf1].
  destruct (first_item_ok fr Hfr) as [f0 Hf0].
  rewrite main_run by done. unfold try_finally.
  set (w0 := with_device true true true w).
  unfold mbind at 1. unfold M_bind at 1.
  (* the first part of make_plot *)
  pose proof (first_plot_result the_stream w0 d arr fr tm t0 t1 f1 f0
                Hin Hsp Ht0 Ht1 Hf1 Hf0) as Hfirst.
  set (im := fresh (dom (heap w0))) in *.
  set (o1 := mk_AxesImage arr _ _ _ _ _) in Hfirst.
  set (w1 := with_axes _ _) in Hfirst.
  set (an := mk_FuncAnimation (im, the_stream) SAMPLE_LENGTH true).
  rewrite (make_plot_after_first_plot RATE SAMPLE_LENGTH specgram the_stream
             w0 w1 the_figure im Hfirst).
  rewrite new_FuncAnimation_run. fold an.
  set (w1' := with_animations (animations w1 ++ [an]) w1).
  set (n := init_draws w) in *.
  set (k := length (ticks w)) in *.
  change (init_draws w1) with n.
  (* the reads of the three stages *)
  destruct (feeds_S RATE specgram (frame_of_shape (nrows arr) newCols)
              w w1' (n + k)) as [_ Hfeed1];
    [reflexivity | reflexivity | exact Hfeed |].
  (* the calls made by the constructor *)
  destruct (animate_history an newCols (replicate n 0%Z) w1' o1 [arr])
    as (w2 & o2 & Hrun2 & Hh2 & Hcols2 & Hr2 & Hcur2 & Hin2).
  { lia. }
  { subst w1' w1 an. cbn. apply lookup_insert_eq. }
  { subst o1. unfold side_by_side. cbn. by rewrite app_nil_r. }
  { by constructor. }
  { rewrite length_replicate. subst o1. cbn [im_A].
    exact (feeds_prefix _ w1' n k Hfeed1). }
  rewrite length_replicate in Hcols2, Hcur2.
  rewrite Hrun2.
  assert (Hr2' : nrows (im_A o2) = nrows arr) by (by rewrite Hr2).
  destruct (feeds_split (frame_of_shape (nrows arr) newCols)
              w1' (with_ticks [] w2) n k) as [Hfeed2 Hfeed3];
    [exact Hin2 | exact Hcur2 | exact Hfeed1 |].
  (* the event loop *)
  unfold plt_show. unfold mbind at 1. unfold M_bind at 1.
  pose proof (animate_same_plot an (replicate n 0%Z) w1') as Hsame.
  rewrite Hrun2 in Hsame. cbn [snd] in Hsame.
  destruct Hsame as (_ & Hanims2 & _).
  pose proof (animate_ticks an (replicate n 0%Z) w1') as Hticks2.
  rewrite Hrun2 in Hticks2. cbn [snd] in Hticks2.
  change (ticks w1') with (ticks w) in Hticks2.
  pose proof (keeps_view_animate _ show_fault_blind (replicate n 0%Z) [an]
                w1') as Hshow2.
  rewrite Hrun2 in Hshow2. cbn in Hshow2.
  assert (Hanims2' : animations w2 = [an]).
  { rewrite Hanims2. subst w1' w1 w0. cbn. by rewrite Hanims. }
  rewrite Hanims2', Hticks2.
  destruct (animate_history an newCols (ticks w) (with_ticks [] w2) o2
              ([arr] ++ frames_ahead RATE specgram w1' n))
    as (w3 & o3 & Hrun3 & Hh3 & Hcols3 & Hr3 & Hcur3 & Hin3).
  { lia. }
  { exact Hh2. }
  { exact Hcols2. }
  { apply Forall_app. split; [by constructor|].
    by apply (frames_ahead_shapes (nrows arr) newCols). }
  { by rewrite Hr2'. }
  rewrite Hrun3. unfold lift.
  rewrite Hshow2, Hshow.
  rewrite finaliser_result.
  pose proof (keeps_view_animate _ release_fails_blind (ticks w) [an]
                (with_ticks [] w2)) as Hfails3.
  rewrite Hrun3 in Hfails3. cbn in Hfails3.
  pose proof (keeps_view_animate _ release_fails_blind (replicate n 0%Z) [an]
                w1') as Hfails2.
  rewrite Hrun2 in Hfails2. cbn in Hfails2.
  rewrite Hfails3, Hfails2, !Hok.
  eexists _, o3. split; [reflexivity|].
  split; [by repeat split|].
  change (cursor (with_device false false false w3)) with (cursor w3).
  change (heap (with_device false false false w3)) with (heap w3).
  split.
  { rewrite Hcur3.
    change (cursor (with_ticks [] w2)) with (cursor w2).
    rewrite Hcur2.
    change (cursor w1') with (S (cursor w)). fold k. lia. }
  split; [exact Hh3|].
  split; [by rewrite Hr3|].
  rewrite Hcols3. fold k.
  rewrite (frames_ahead_S RATE specgram w w1' (n + k) d arr fr tm
             Hin Hsp eq_refl eq_refl).
  rewrite (frames_ahead_app w1' (with_ticks [] w2) n k Hin2 Hcur2).
  by rewrite <- app_assoc.
Qed.

End Program.

(** ** The further statements at work on concrete runs *)

Module MoreRuns.
Import Scenario.

Lemma frame0_again :
  get_specgram RATE specgram signal0 = Ok (frame0.1.1, frame0.1.2, frame0.2).
Proof. vm_compute. reflexivity. Qed.

Lemma update_fig_empty_time_axis_witness :
  update_fig RATE mute_specgram 0 1%positive the_stream world_full
  = (Raise ZeroDivisionError, with_cursor (S (cursor world_full)) world_full).
Proof.
  apply (update_fig_empty_time_axis RATE mute_specgram 0 1%positive the_stream
           world_full signal0 (mk_ndarray (N_FFT / 2 + 1) []) [0%Q]
           (image_with (mk_ndarray (N_FFT / 2 + 1)
              [column_of 1; column_of 2; column_of 3; column_of 4]))).
  - vm_compute. reflexivity.
  - reflexivity.
  - vm_compute. reflexivity.
Defined.

Lemma update_fig_row_mismatch_witness :
  update_fig RATE specgram 0 1%positive the_stream world_low
  = (Raise ValueError, with_cursor (S (cursor world_low)) world_low).
Proof.
  apply (update_fig_row_mismatch RATE specgram 0 1%positive the_stream
           world_low signal0 frame0.1.1 frame0.1.2 frame0.2
           (image_with (mk_ndarray 4 [[1; 2; 3; 4]%Z]))).
  - vm_compute. reflexivity.
  - apply frame0_again.
  - vm_compute. reflexivity.
  - vm_compute. lia.
  - vm_compute. lia.
Defined.

Lemma update_fig_failure_keeps_plot_witness :
  heap (update_fig RATE specgram 0 1%positive the_stream world_low).2
  = heap world_low /\
  axes (update_fig RATE specgram 0 1%positive the_stream world_low).2
  = axes world_low /\
  animations (update_fig RATE specgram 0 1%positive the_stream world_low).2
  = animations world_low.
Proof.
  apply (update_fig_failure_keeps_plot RATE specgram 0 1%positive the_stream
           world_low _ ValueError).
  vm_compute. reflexivity.
Defined.

Lemma update_fig_reads_once_witness :
  cursor (update_fig RATE specgram 3 1%positive the_stream world_full).2
  = S (cursor world_full) /\
  input (update_fig RATE specgram 3 1%positive the_stream world_full).2
  = input world_full /\
  device_state (update_fig RATE specgram 3 1%positive the_stream world_full).2
  = device_state world_full /\
  ticks (update_fig RATE specgram 3 1%positive the_stream world_full).2
  = ticks world_full.
Proof.
  apply (update_fig_reads_once RATE specgram 3 1%positive the_stream
           world_full _
           (update_fig RATE specgram 3 1%positive the_stream world_full).1).
  apply (surjective_pairing
           (update_fig RATE specgram 3 1%positive the_stream world_full)).
Defined.

Lemma update_fig_fills_witness :
  exists w' o',
    update_fig RATE specgram 0 1%positive the_stream world_half
      = (Ok [1%positive], w') /\
    heap w' !! 1%positive = Some o' /\
    shape1 (im_A o') = 2 + shape1 frame0.1.1 /\
    (forall j, j < 2 ->
       column (im_A o') j
       = column (im_A (image_with (mk_ndarray (N_FFT / 2 + 1)
                                     [column_of 1; column_of 2]))) j) /\
    (forall i, column (im_A o') (2 + i) = column frame0.1.1 i).
Proof.
  apply (update_fig_fills RATE specgram 0 1%positive the_stream world_half
           signal0 frame0.1.1 frame0.1.2 frame0.2
           (image_with (mk_ndarray (N_FFT / 2 + 1)
                          [column_of 1; column_of 2]))).
  - vm_compute. reflexivity.
  - apply frame0_again.
  - vm_compute. reflexivity.
  - vm_compute. lia.
  - vm_compute. reflexivity.
  - vm_compute. lia.
Defined.

Lemma update_fig_never_shrinks_witness :
  exists w' o',
    update_fig RATE specgram 0 1%positive the_stream world_full
      = (Ok [1%positive], w') /\
    heap w' !! 1%positive = Some o' /\
    4 <= shape1 (im_A o') /\
    shape1 (im_A o') <= 4 + shape1 frame0.1.1.
Proof.
  apply (update_fig_never_shrinks RATE specgram 0 1%positive the_stream
           world_full signal0 frame0.1.1 frame0.1.2 frame0.2
           (image_with (mk_ndarray (N_FFT / 2 + 1)
              [column_of 1; column_of 2; column_of 3; column_of 4]))).
  - vm_compute. reflexivity.
  - apply frame0_again.
  - vm_compute. reflexivity.
  - vm_compute. lia.
  - vm_compute. reflexivity.
  - vm_compute. reflexivity.
Defined.

Lemma animate_shows_newest_frames_witness :
  exists w' o',
    animate RATE specgram [0; 0; 1]%Z [the_animation] world_empty
      = (Ok tt, w') /\
    heap w' !! (anim_fargs the_animation).1 = Some o' /\
    columns (im_A o')
    = side_by_side
        (newest SAMPLES_PER_FRAME
           (frames_ahead RATE specgram world_empty (length [0; 0; 1]%Z))).
Proof.
  apply (animate_shows_newest_frames RATE specgram [0; 0; 1]%Z the_animation 2
           world_empty (image_with (mk_ndarray (N_FFT / 2 + 1) []))).
  - lia.
  - vm_compute. reflexivity.
  - reflexivity.
  - vm_compute. reflexivity.
Defined.

Lemma main_without_device_witness :
  main RATE SAMPLE_LENGTH specgram world_no_device
  = (Raise DeviceUnavailable, world_no_device).
Proof.
  apply (main_without_device RATE SAMPLE_LENGTH specgram world_no_device).
  reflexivity.
Defined.

Lemma main_release_stops_at_first_failure_witness :
  exists r w',
    main RATE SAMPLE_LENGTH specgram world_stop_fails = (r, w') /\
    (release_fails world_stop_fails StopStream = true ->
       r = Raise OSError /\ device_state w' = (true, true, true)) /\
    (release_fails world_stop_fails StopStream = false ->
     release_fails world_stop_fails CloseStream = true ->
       r = Raise OSError /\ device_state w' = (true, true, false)) /\
    (release_fails world_stop_fails StopStream = false ->
     release_fails world_stop_fails CloseStream = false ->
     release_fails world_stop_fails Terminate = true ->
       r = Raise OSError /\ device_state w' = (true, false, false)).
Proof.
  apply (main_release_stops_at_first_failure RATE SAMPLE_LENGTH specgram
           world_stop_fails).
  reflexivity.
Defined.

Lemma make_plot_first_frame_failure_witness :
  exists w',
    make_plot RATE SAMPLE_LENGTH specgram the_stream world_dead_mic
      = (Raise CaptureOverrun, w') /\
    heap w' = heap world_dead_mic /\
    animations w' = animations world_dead_mic /\
    ax_images (axes w') = [].
Proof.
  apply (make_plot_first_frame_failure RATE SAMPLE_LENGTH specgram the_stream
           world_dead_mic CaptureOverrun).
  left. reflexivity.
Defined.

Lemma main_first_frame_failure_witness :
  exists w',
    main RATE SAMPLE_LENGTH specgram world_dead_mic
      = (Raise CaptureOverrun, w') /\
    released w' /\
    heap w' = heap world_dead_mic /\
    animations w' = animations world_dead_mic.
Proof.
  apply (main_first_frame_failure RATE SAMPLE_LENGTH specgram world_dead_mic
           CaptureOverrun).
  - reflexivity.
  - intros c. reflexivity.
  - left. reflexivity.
Defined.

Lemma make_plot_empty_axis_witness :
  exists w',
    make_plot RATE SAMPLE_LENGTH mute_specgram the_stream world0
      = (Raise IndexError, w') /\
    heap w' = heap world0 /\
    animations w' = animations world0.
Proof.
  apply (make_plot_empty_axis RATE SAMPLE_LENGTH mute_specgram the_stream
           world0 signal0 (mk_ndarray (N_FFT / 2 + 1) []) [0%Q] []).
  - vm_compute. reflexivity.
  - reflexivity.
  - left. reflexivity.
Defined.

Lemma animate_reads_one_per_call_witness :
  exists w',
    animate RATE specgram [0; 0; 1]%Z [the_animation] world_full
      = (Ok tt, w') /\
    cursor w' = cursor world_full + length [0; 0; 1]%Z /\
    input w' = input world_full.
Proof.
  apply (animate_reads_one_per_call RATE specgram [0; 0; 1]%Z the_animation
           world_full
           (image_with (mk_ndarray (N_FFT / 2 + 1)
              [column_of 1; column_of 2; column_of 3; column_of 4]))).
  - vm_compute. reflexivity.
  - vm_compute. reflexivity.
Defined.

Lemma plot_setup_survives_witness :
  exists an w2,
    make_plot RATE SAMPLE_LENGTH specgram the_stream world0 = (Ok an, w2) /\
    anim_fargs an = (fresh (dom (heap world0)), the_stream) /\
    axes (animate RATE specgram [0; 0; 1]%Z [an] w2).2
    = mk_Axes [fresh (dom (heap world0))] "Time (s)" "Frequency (Hz)"
              "Real-Time Spectogram"
              (item_of (first_item frame0.1.2),
               item_of (last_item frame0.1.2)) /\
    attributes
      <$> heap (animate RATE specgram [0; 0; 1]%Z [an] w2).2
          !! fresh (dom (heap world0))
    = Some ((item_of (first_item frame0.2),
             (item_of (last_item frame0.2)
              * inject_Z (Z.of_nat SAMPLES_PER_FRAME))%Q,
             item_of (last_item frame0.1.2),
             item_of (first_item frame0.1.2)),
            "auto", "none", "jet", mk_LogNorm (1 # 100) 1).
Proof.
  apply (plot_setup_survives RATE SAMPLE_LENGTH specgram the_stream world0
           signal0 frame0.1.1 frame0.1.2 frame0.2).
  - vm_compute. reflexivity.
  - apply frame0_again.
  - vm_compute. reflexivity.
  - vm_compute. reflexivity.
  - vm_compute. reflexivity.
  - vm_compute. reflexivity.
  - vm_compute. reflexivity.
Defined.

Lemma main_runs_to_the_end_witness :
  exists w' o',
    main RATE SAMPLE_LENGTH specgram world0 = (Ok tt, w') /\
    released w' /\
    cursor w' = cursor world0 + S (init_draws world0 + length (ticks world0)) /\
    heap w' !! fresh (dom (heap world0)) = Some o' /\
    nrows (im_A o') = nrows frame0.1.1 /\
    columns (im_A o')
    = side_by_side
        (newest SAMPLES_PER_FRAME
           (frames_ahead RATE specgram world0
              (S (init_draws world0 + length (ticks world0))))).
Proof.
  apply (main_runs_to_the_end RATE SAMPLE_LENGTH specgram world0
           signal0 frame0.1.1 frame0.1.2 frame0.2 2).
  - reflexivity.
  - intros c. reflexivity.
  - reflexivity.
  - reflexivity.
  - vm_compute. reflexivity.
  - apply frame0_again.
  - vm_compute. discriminate.
  - lia.
  - vm_compute. reflexivity.
Defined.
End MoreRuns.
